(** * ZigChain transfer monitor: ingestion pipeline

    A shallow embedding of [src/monitor.ts] (the [TransferMonitor] class),
    [src/websocket.ts] (the [ZigWebSocketClient] class) and the way
    [src/index.ts] starts the handler, with the properties the specification
    states about them.

    Conventions.
    - A JavaScript string is a [string]; one character is one UTF-16 code
      unit, and the embedding covers code units below 256.
    - [undefined] is [None] at type [option json]; [null] is [JNull].
    - A JavaScript [number] that came out of [JSON.parse] is carried as the
      text [String(n)] gives for it: the code only ever asks a number for its
      type, its truthiness, its [String] rendering and [===].
    - A [bigint] is a [Z].
    - A [number] the code computes with ([Math.random() * 250]) is an IEEE
      754 binary64 value, a [spec_float] with precision 53 and [emax] 1024.
    - Code that can throw returns a [result]; a rejected promise is a
      [Throw].
    - [console.*] calls are left out; the calls that leave the process
      ([fetch], the notifier, [ws.send], the observer callback) and the
      timers are recorded, in order, in an effect log. *)

From Stdlib Require Import ZArith String Ascii List QArith SpecFloat.
From stdpp Require Import gmap strings list pretty.

Open Scope string_scope.
Open Scope list_scope.
Open Scope Z_scope.

(** ** Characters and the string built-ins the code uses *)

Definition code (c : ascii) : N := N_of_ascii c.

Definition in_range (lo hi : N) (c : ascii) : bool :=
  ((lo <=? code c) && (code c <=? hi))%N.

(** [\d] *)
Definition isDigit (c : ascii) : bool := in_range 48 57 c.
Definition isLowerAlpha (c : ascii) : bool := in_range 97 122 c.
Definition isUpperAlpha (c : ascii) : bool := in_range 65 90 c.

(** [\w], the class behind [\B] *)
Definition isWordChar (c : ascii) : bool :=
  isDigit c || isLowerAlpha c || isUpperAlpha c || (code c =? 95)%N.

(** WhiteSpace and LineTerminator code units below 256, as [trim] strips. *)
Definition isWhiteSpace (c : ascii) : bool :=
  in_range 9 13 c || (code c =? 32)%N || (code c =? 160)%N.

(** [[\x20-\x7e]] *)
Definition isPrintable (c : ascii) : bool := in_range 32 126 c.

Definition is_char (x : ascii) (c : ascii) : bool := (code c =? code x)%N.

Fixpoint all_chars (p : ascii -> bool) (s : string) : bool :=
  match s with
  | EmptyString => true
  | String c r => p c && all_chars p r
  end.

Fixpoint any_char (p : ascii -> bool) (s : string) : bool :=
  match s with
  | EmptyString => false
  | String c r => p c || any_char p r
  end.

Definition nonEmpty (s : string) : bool :=
  match s with EmptyString => false | String _ _ => true end.

(** A regular expression of the shape [^[class]+$]. *)
Definition matches_plus (p : ascii -> bool) (s : string) : bool :=
  nonEmpty s && all_chars p s.

Definition toLowerChar (c : ascii) : ascii :=
  if isUpperAlpha c || in_range 192 214 c || in_range 216 222 c
  then ascii_of_N (code c + 32) else c.

Fixpoint toLowerCase (s : string) : string :=
  match s with
  | EmptyString => EmptyString
  | String c r => String (toLowerChar c) (toLowerCase r)
  end.

Fixpoint trimStart (s : string) : string :=
  match s with
  | EmptyString => EmptyString
  | String c r => if isWhiteSpace c then trimStart r else s
  end.

Fixpoint trimEnd (s : string) : string :=
  match s with
  | EmptyString => EmptyString
  | String c r =>
      match trimEnd r with
      | EmptyString => if isWhiteSpace c then EmptyString else String c EmptyString
      | t => String c t
      end
  end.

Definition trim (s : string) : string := trimEnd (trimStart s).

(** [s.endsWith(suffix)] *)
Definition endsWith (s suffix : string) : bool :=
  let n := String.length s in
  let m := String.length suffix in
  (m <=? n)%nat && String.eqb (substring (n - m) m s) suffix.

(** [s.slice(0, -k)] for [k > 0] *)
Definition dropEnd (k : nat) (s : string) : string :=
  substring 0 (String.length s - k) s.

Fixpoint repeatChar (c : ascii) (n : nat) : string :=
  match n with O => EmptyString | S k => String c (repeatChar c k) end.

(** [s.padStart(width, "0")] *)
Definition padStart0 (width : nat) (s : string) : string :=
  repeatChar "0" (width - String.length s) +:+ s.

(** [s.replace(/0+$/, '')] *)
Fixpoint stripTrailingZeros (s : string) : string :=
  match s with
  | EmptyString => EmptyString
  | String c r =>
      match stripTrailingZeros r with
      | EmptyString => if is_char "0" c then EmptyString else String c EmptyString
      | t => String c t
      end
  end.

(** [s.replace(/\/+$/, '')] *)
Fixpoint stripTrailingSlashes (s : string) : string :=
  match s with
  | EmptyString => EmptyString
  | String c r =>
      match stripTrailingSlashes r with
      | EmptyString => if is_char "/" c then EmptyString else String c EmptyString
      | t => String c t
      end
  end.

(** The longest prefix of characters in a class, and what follows it. *)
Fixpoint span (p : ascii -> bool) (s : string) : string * string :=
  match s with
  | EmptyString => (EmptyString, EmptyString)
  | String c r =>
      if p c then let '(a, b) := span p r in (String c a, b)
      else (EmptyString, s)
  end.

(** All but the last character, and the last character. *)
Fixpoint unsnoc (s : string) : option (string * ascii) :=
  match s with
  | EmptyString => None
  | String c r =>
      match unsnoc r with
      | None => Some (EmptyString, c)
      | Some (i, l) => Some (String c i, l)
      end
  end.

(** [BigInt(s)] for a string of decimal digits. *)
Definition digitValue (c : ascii) : Z := Z.of_N (code c) - 48.

Fixpoint digitsToZ (acc : Z) (s : string) : Z :=
  match s with
  | EmptyString => acc
  | String c r => digitsToZ (10 * acc + digitValue c) r
  end.

Definition BigInt_of_digits (s : string) : Z := digitsToZ 0 s.

(** [b.toString()] for a bigint [b]. *)
Definition BigInt_toString (z : Z) : string := pretty z.

(** ** Errors *)

Inductive js_error := TypeError | RangeError.

Inductive result (A : Type) :=
| Ok (a : A)
| Throw (e : js_error).
Arguments Ok {A} a.
Arguments Throw {A} e.

#[global] Instance result_ret : MRet result := fun A a => Ok a.
#[global] Instance result_bind : MBind result := fun A B f m =>
  match m with
  | Ok a => f a
  | Throw e => Throw e
  end.

(** Run a loop body over a list, collecting what each round pushes; a throw
    leaves the loop. *)
Fixpoint collectM {A B} (f : A -> result (list B)) (l : list A) : result (list B) :=
  match l with
  | [] => Ok []
  | x :: r => ys ← f x; zs ← collectM f r; Ok (ys ++ zs)
  end.

(** ** Parsed JSON values *)

#[warnings="-register-all"]
Inductive json :=
| JNull
| JBool (b : bool)
| JNum (repr : string)
| JStr (s : string)
| JArr (items : list json)
| JObj (props : list (string * json)).

(** An object lists its own properties in enumeration order, the order
    [Object.values] follows. *)
Definition props_t := list (string * json).

Fixpoint get (k : string) (o : props_t) : option json :=
  match o with
  | [] => None
  | (k', v) :: r => if String.eqb k k' then Some v else get k r
  end.

(** [obj?.[k]] *)
Definition getOpt (k : string) (o : option props_t) : option json :=
  match o with
  | Some ps => get k ps
  | None => None
  end.

Definition hasKey (k : string) (o : props_t) : bool :=
  match get k o with Some _ => true | None => false end.

Definition truthy (v : option json) : bool :=
  match v with
  | None | Some JNull => false
  | Some (JBool b) => b
  | Some (JNum r) => negb (String.eqb r "0")
  | Some (JStr s) => nonEmpty s
  | Some (JArr _) | Some (JObj _) => true
  end.

(** [asRecord]: a non-null, non-array object, else [null]. *)
Definition asRecord (v : option json) : option props_t :=
  match v with
  | Some (JObj ps) => Some ps
  | _ => None
  end.

Definition asArray (v : option json) : option (list json) :=
  match v with
  | Some (JArr l) => Some l
  | _ => None
  end.

(** [typeof v === "string" ? v : null] *)
Definition asString (v : option json) : option string :=
  match v with
  | Some (JStr s) => Some s
  | _ => None
  end.

Fixpoint joinComma (l : list string) : string :=
  match l with
  | [] => EmptyString
  | [x] => x
  | x :: r => x +:+ "," +:+ joinComma r
  end.

(** [String(v)] for a defined value.  An array goes through
    [Array.prototype.join]; an object goes through OrdinaryToPrimitive:
    without an own [toString] it is the text [[object Object]], with one
    (never callable in parsed JSON) the conversion throws a TypeError. *)
Fixpoint js_String (v : json) : result string :=
  match v with
  | JNull => Ok "null"
  | JBool true => Ok "true"
  | JBool false => Ok "false"
  | JNum r => Ok r
  | JStr s => Ok s
  | JArr items =>
      let fix each (l : list json) : result (list string) :=
        match l with
        | [] => Ok []
        | x :: r =>
            s ← match x with JNull => Ok EmptyString | _ => js_String x end;
            ss ← each r;
            Ok (s :: ss)
        end in
      ss ← each items; Ok (joinComma ss)
  | JObj ps =>
      if hasKey "toString" ps then Throw TypeError else Ok "[object Object]"
  end.

(** [String(v || '')] *)
Definition String_or_empty (v : option json) : result string :=
  match v with
  | Some x => if truthy v then js_String x else Ok EmptyString
  | None => Ok EmptyString
  end.

(** [String(v ?? '')] *)
Definition String_nullish_empty (v : option json) : result string :=
  match v with
  | None | Some JNull => Ok EmptyString
  | Some x => js_String x
  end.

(** [typeof v === "string"] on every element kept by [stringArray]. *)
Definition stringArray (v : option json) : list string :=
  match v with
  | Some (JArr l) => omap (fun x => asString (Some x)) l
  | _ => []
  end.

Definition firstArrayValue (v : option json) : option string :=
  match v with
  | Some (JArr (first :: _)) => asString (Some first)
  | _ => None
  end.

(** [a || b] on [string | null] operands. *)
Definition or_string (a b : option string) : option string :=
  match a with
  | Some s => if nonEmpty s then a else b
  | None => b
  end.

(** [a || null] where [a] is [string | null | undefined]. *)
Definition or_null (a : option string) : option string := or_string a None.

(** [a || d] with a string default. *)
Definition or_default (a : option string) (d : string) : string :=
  match a with
  | Some s => if nonEmpty s then s else d
  | None => d
  end.

(** [l[i] || l[0] || ''] *)
Definition pick (l : list string) (i : nat) : string :=
  or_default (l !! i) (or_default (l !! 0%nat) EmptyString).

(** [walk]: the values handed to [visit], in call order.  The source
    recurses on the native call stack, one level per level of nesting; the
    embedding takes the stack as deep enough for the value, so the
    [RangeError] of a frame nested deeper than the stack allows is outside
    it. *)
Fixpoint walk (value : json) : list json :=
  value ::
  match value with
  | JArr items =>
      (fix each (l : list json) : list json :=
         match l with
         | [] => []
         | item :: r => walk item ++ each r
         end) items
  | JObj ps =>
      (fix each (l : list (string * json)) : list json :=
         match l with
         | [] => []
         | (_, nested) :: r => walk nested ++ each r
         end) ps
  | _ => []
  end.

(** ** [monitor.ts]: data *)

(** [TxSendEvent.amount]: the interface says [string]; the direct scan also
    lets a [number] through. *)
Inductive Amount :=
| AmountString (s : string)
| AmountNumber (repr : string).

Record TxSendEvent := {
  ev_sender : string;
  ev_recipient : string;
  ev_amount : Amount;
  ev_denom : string;
  ev_txhash : string
}.

Record NormalizedTransfer := {
  nt_sender : string;
  nt_recipient : string;
  nt_amountUzig : Z;
  nt_denom : string;
  nt_txhash : string
}.

Record TxContext := {
  eventType : option string;
  contractAddress : option string;
  action : option string;
  offerAsset : option string;
  askAsset : option string;
  offerAmount : option string;
  returnAmount : option string
}.

(** The fields of [AppConfig] the monitor reads. *)
Record AppConfig := {
  lcdUrl : string;
  monitoredWallets : gset string;
  minAmountUzig : Z;
  zigDecimals : Z;
  maxSeenTxHashes : Z
}.

Inductive Direction := Sent | Received.

(** The parameter object of [sendLargeTransferAlert]. *)
Record Alert := {
  al_wallet : string;
  al_direction : Direction;
  al_amountZig : string;
  al_amountUzig : string;
  al_denom : string;
  al_txHash : string;
  al_sender : string;
  al_recipient : string;
  al_eventType : string;
  al_contractAddress : string;
  al_action : option string;
  al_offerAsset : option string;
  al_askAsset : option string;
  al_offerAmount : option string;
  al_returnAmount : option string
}.

(** What the monitor does to the outside, in order. *)
Inductive effect :=
| Fetch (url : string)
| Sleep (ms : Z)
| Notify (a : Alert).

(** What one [fetch] gives: a rejection (transport error or the 8 s abort),
    or a response with [ok], [status] and the value [response.json()]
    resolves to ([None] when that rejects). *)
Inductive http_outcome :=
| Rejected
| Response (ok : bool) (status : Z) (body : option json).

(** The state of a [TransferMonitor] and the effect log of the process. *)
Record Monitor := {
  seenTxHashes : gset string;
  txOrder : list string;
  nonEventMessageCount : Z;
  txContextCache : gmap string (option TxContext);
  effects : list effect
}.

Definition newMonitor : Monitor := {|
  seenTxHashes := ∅;
  txOrder := [];
  nonEventMessageCount := 0;
  txContextCache := ∅;
  effects := []
|}.

Definition is_fetch (e : effect) : bool :=
  match e with Fetch _ => true | _ => false end.

Definition fetchCount (st : Monitor) : nat :=
  length (filter (fun e => is_fetch e = true) (effects st)).

Definition alertsOf (l : list effect) : list Alert :=
  omap (fun e => match e with Notify a => Some a | _ => None end) l.

Definition emit (e : effect) (st : Monitor) : Monitor := {|
  seenTxHashes := seenTxHashes st;
  txOrder := txOrder st;
  nonEventMessageCount := nonEventMessageCount st;
  txContextCache := txContextCache st;
  effects := effects st ++ [e]
|}.

(** ** [monitor.ts]: the dedup ledger *)

Definition markSeen (cfg : AppConfig) (txHash : string) (st : Monitor) : Monitor :=
  let seen := {[txHash]} ∪ seenTxHashes st in
  let order := txOrder st ++ [txHash] in
  let '(seen', order') :=
    if maxSeenTxHashes cfg <? Z.of_nat (length order) then
      match order with
      | oldest :: rest =>
          (if nonEmpty oldest then seen ∖ {[oldest]} else seen, rest)
      | [] => (seen, order)
      end
    else (seen, order) in
  {| seenTxHashes := seen';
     txOrder := order';
     nonEventMessageCount := nonEventMessageCount st;
     txContextCache := txContextCache st;
     effects := effects st |}.

(** ** [monitor.ts]: amounts *)

(** [/\B(?=(\d{3})+(?!\d))/] at the position in front of [s], [prev] being
    the character before it: both neighbours are word characters or neither
    is, and the digits that start here are a positive multiple of three. *)
Definition separatorHere (prev : option ascii) (s : string) : bool :=
  let before := match prev with Some p => isWordChar p | None => false end in
  let after := match s with String c _ => isWordChar c | EmptyString => false end in
  let run := String.length (fst (span isDigit s)) in
  Bool.eqb before after && (0 <? run)%nat && (run mod 3 =? 0)%nat.

Fixpoint separateFrom (prev : option ascii) (s : string) : string :=
  match s with
  | EmptyString => EmptyString
  | String c r =>
      let tail := String c (separateFrom (Some c) r) in
      if separatorHere prev s then String "," tail else tail
  end.

Definition addThousandsSeparators (numStr : string) : string :=
  separateFrom None numStr.

(** [/] and [%] on bigints truncate toward zero; a zero divisor is a
    RangeError. *)
Definition formatZigAmount (cfg : AppConfig) (amountUzig : Z) : result string :=
  if zigDecimals cfg =? 0 then Throw RangeError else
  let whole := Z.quot amountUzig (zigDecimals cfg) in
  let fraction := Z.rem amountUzig (zigDecimals cfg) in
  let wholeStr := addThousandsSeparators (BigInt_toString whole) in
  if fraction =? 0 then Ok wholeStr else
  let fractionStr := stripTrailingZeros (padStart0 6 (BigInt_toString fraction)) in
  Ok (wholeStr +:+ "." +:+ fractionStr).

Definition parseAmountToUzig (amountRaw denom : string) : option Z :=
  if matches_plus isDigit amountRaw then Some (BigInt_of_digits amountRaw) else
  let lower := toLowerCase amountRaw in
  if nonEmpty denom && endsWith lower denom then
    let numericPart := dropEnd (String.length denom) lower in
    if matches_plus isDigit numericPart then Some (BigInt_of_digits numericPart)
    else None
  else None.

Definition Amount_String (a : Amount) : string :=
  match a with
  | AmountString s => s
  | AmountNumber repr => repr
  end.

Definition normalizeTransfer (event : TxSendEvent) : option NormalizedTransfer :=
  let sender := trim (ev_sender event) in
  let recipient := trim (ev_recipient event) in
  let denom := toLowerCase (trim (ev_denom event)) in
  let txhash := trim (ev_txhash event) in
  if negb (nonEmpty sender) || negb (nonEmpty recipient)
     || negb (nonEmpty denom) || negb (nonEmpty txhash) then None else
  let amountRaw := trim (Amount_String (ev_amount event)) in
  match parseAmountToUzig amountRaw denom with
  | None => None
  | Some amountUzig =>
      if amountUzig <=? 0 then None else
      Some {| nt_sender := sender;
              nt_recipient := recipient;
              nt_amountUzig := amountUzig;
              nt_denom := denom;
              nt_txhash := txhash |}
  end.

(** ** [monitor.ts]: extraction *)

Definition isTxSendEvent (value : json) : option TxSendEvent :=
  match asRecord (Some value) with
  | None => None
  | Some obj =>
      match get "sender" obj, get "recipient" obj, get "amount" obj,
            get "denom" obj, get "txhash" obj with
      | Some (JStr s), Some (JStr r), Some a, Some (JStr d), Some (JStr h) =>
          match a with
          | JStr x => Some {| ev_sender := s; ev_recipient := r;
                              ev_amount := AmountString x;
                              ev_denom := d; ev_txhash := h |}
          | JNum n => Some {| ev_sender := s; ev_recipient := r;
                              ev_amount := AmountNumber n;
                              ev_denom := d; ev_txhash := h |}
          | _ => None
          end
      | _, _, _, _, _ => None
      end
  end.

Definition isLowerAlnum (c : ascii) : bool := isLowerAlpha c || isDigit c.

(** [s.match(/^(\d+)([a-z0-9]+)$/)]: the two groups.  The digits are taken
    greedily; when nothing follows them the last digit is given back to the
    second group. *)
Definition matchAmountDenom (s : string) : option (string * string) :=
  let '(ds, rest) := span isDigit s in
  match rest with
  | EmptyString =>
      match unsnoc ds with
      | Some (init, last) =>
          if nonEmpty init then Some (init, String last EmptyString) else None
      | None => None
      end
  | _ => if nonEmpty ds && all_chars isLowerAlnum rest then Some (ds, rest) else None
  end.

Definition extractFromCosmosEventStyle (payload : json) : list TxSendEvent :=
  match asRecord (Some payload) with
  | None => []
  | Some obj =>
      let result := asRecord (get "result" obj) in
      let events := asRecord (getOpt "events" result) in
      let senders := stringArray (getOpt "transfer.sender" events) in
      let recipients := stringArray (getOpt "transfer.recipient" events) in
      let amounts := stringArray (getOpt "transfer.amount" events) in
      let txhash := or_string (firstArrayValue (getOpt "tx.hash" events))
                              (firstArrayValue (getOpt "tx.hashes" events)) in
      match txhash with
      | None => []
      | Some txhash =>
          if negb (nonEmpty txhash) || (length senders =? 0)%nat
             || (length recipients =? 0)%nat || (length amounts =? 0)%nat
          then [] else
          let count := Nat.max (Nat.max (length senders) (length recipients)) (length amounts) in
          mbind (fun i : nat =>
            let sender := trim (pick senders i) in
            let recipient := trim (pick recipients i) in
            let amount := trim (pick amounts i) in
            if negb (nonEmpty sender) || negb (nonEmpty recipient)
               || negb (nonEmpty amount) then [] else
            match matchAmountDenom (toLowerCase amount) with
            | None => []
            | Some (m1, m2) =>
                [ {| ev_sender := sender; ev_recipient := recipient;
                     ev_amount := AmountString m1; ev_denom := m2;
                     ev_txhash := txhash |} ]
            end) (seq 0 count)
      end
  end.

Definition extractTxHash (payload : json) : option string :=
  match asRecord (Some payload) with
  | None => None
  | Some root =>
      let direct := asString (get "txhash" root) in
      match or_null direct with
      | Some h => Some h
      | None =>
          let result := asRecord (get "result" root) in
          let events := asRecord (getOpt "events" result) in
          let eventHash := or_string (firstArrayValue (getOpt "tx.hash" events))
                                     (firstArrayValue (getOpt "tx.hashes" events)) in
          match or_null eventHash with
          | Some h => Some h
          | None =>
              let data := asRecord (getOpt "data" result) in
              let value := asRecord (getOpt "value" data) in
              let txResultContainer := asRecord (getOpt "TxResult" value) in
              let txResult := asRecord (getOpt "result" txResultContainer) in
              asString (getOpt "hash" txResult)
          end
      end
  end.

(** [[a-z0-9/._-]] *)
Definition isCoinDenomChar (c : ascii) : bool :=
  isLowerAlnum c || is_char "/" c || is_char "." c || is_char "_" c || is_char "-" c.

(** Where the scan of [/(\d+)([a-z0-9/._-]+)/g] stands: outside a match, in
    the digits of group 1, or in group 2. *)
Inductive coinScan :=
| Outside
| InAmount (ds : string)
| InDenom (ds cl : string).

Definition snoc (s : string) (c : ascii) : string := s +:+ String c EmptyString.

(** The match a scan state stands for when the class of group 2 ends.  Digits
    with nothing of the class after them give their last digit to group 2. *)
Definition closeCoin (st : coinScan) : list (string * string) :=
  match st with
  | Outside => []
  | InAmount ds =>
      match unsnoc ds with
      | Some (init, last) =>
          if nonEmpty init then [(init, String last EmptyString)] else []
      | None => []
      end
  | InDenom ds cl => [(ds, cl)]
  end.

Fixpoint scanCoins (st : coinScan) (s : string) : list (string * string) :=
  match s with
  | EmptyString => closeCoin st
  | String c r =>
      match st with
      | Outside =>
          if isDigit c then scanCoins (InAmount (String c EmptyString)) r
          else scanCoins Outside r
      | InAmount ds =>
          if isDigit c then scanCoins (InAmount (snoc ds c)) r
          else if isCoinDenomChar c then scanCoins (InDenom ds (String c EmptyString)) r
          else closeCoin st ++ scanCoins Outside r
      | InDenom ds cl =>
          if isCoinDenomChar c then scanCoins (InDenom ds (snoc cl c)) r
          else closeCoin st ++ scanCoins Outside r
      end
  end.

(** [parseCoins]: the pairs [(amount, denom)] of the successive matches. *)
Definition parseCoins (raw : string) : list (string * string) :=
  scanCoins Outside (toLowerCase raw).

(** [[a-z0-9/._:-]] under the [i] flag *)
Definition isPlainTokenChar (c : ascii) : bool :=
  isLowerAlpha c || isUpperAlpha c || isDigit c
  || is_char "/" c || is_char "." c || is_char "_" c || is_char ":" c || is_char "-" c.

(** [[a-z0-9+/=]] under the [i] flag *)
Definition isBase64Char (c : ascii) : bool :=
  isLowerAlpha c || isUpperAlpha c || isDigit c
  || is_char "+" c || is_char "/" c || is_char "=" c.

Section Extraction.

(** [Buffer.from(s, "base64").toString("utf-8")], which never throws. *)
Variable base64_utf8 : string -> string.

(** [decodeMaybeBase64], with whether [Buffer.from] was reached. *)
Definition decodeMaybeBase64_run (input : string) : bool * string :=
  let trimmed := trim input in
  if negb (nonEmpty trimmed) then (false, EmptyString) else
  if matches_plus isPlainTokenChar trimmed then (false, trimmed) else
  if negb (matches_plus isBase64Char trimmed)
     || negb (String.length trimmed mod 4 =? 0)%nat then (false, trimmed) else
  let decoded := trim (base64_utf8 trimmed) in
  if negb (nonEmpty decoded) then (true, trimmed) else
  (true, if matches_plus isPrintable decoded then decoded else trimmed).

Definition decodeMaybeBase64 (input : string) : string :=
  snd (decodeMaybeBase64_run input).

Definition base64Attempted (input : string) : bool :=
  fst (decodeMaybeBase64_run input).

(** The three columns the attribute loop fills. *)
Record transferAttrs := {
  senders : list string;
  recipients : list string;
  amounts : list string
}.

Definition pushAttr (key valueRaw : string) (acc : transferAttrs) : transferAttrs :=
  if String.eqb key "sender" then
    {| senders := senders acc ++ [valueRaw];
       recipients := recipients acc; amounts := amounts acc |}
  else if String.eqb key "recipient" then
    {| senders := senders acc;
       recipients := recipients acc ++ [valueRaw]; amounts := amounts acc |}
  else if String.eqb key "amount" then
    {| senders := senders acc;
       recipients := recipients acc; amounts := amounts acc ++ [valueRaw] |}
  else acc.

Fixpoint collectAttrs (attrs : list json) (acc : transferAttrs) : result transferAttrs :=
  match attrs with
  | [] => Ok acc
  | attrRaw :: r =>
      match asRecord (Some attrRaw) with
      | None => collectAttrs r acc
      | Some attr =>
          k ← String_nullish_empty (get "key" attr);
          let key := decodeMaybeBase64 k in
          v ← String_nullish_empty (get "value" attr);
          let valueRaw := decodeMaybeBase64 v in
          collectAttrs r (pushAttr key valueRaw acc)
      end
  end.

Definition transfersOfEvent (txHash : string) (event : props_t) : result (list TxSendEvent) :=
  ty ← String_or_empty (get "type" event);
  if negb (String.eqb (toLowerCase ty) "transfer") then Ok [] else
  let attrs := match get "attributes" event with
               | Some (JArr l) => l
               | _ => []
               end in
  cols ← collectAttrs attrs {| senders := []; recipients := []; amounts := [] |};
  let count := Nat.max (Nat.max (length (senders cols)) (length (recipients cols)))
                       (length (amounts cols)) in
  Ok (mbind (fun i : nat =>
        let sender := trim (pick (senders cols) i) in
        let recipient := trim (pick (recipients cols) i) in
        let amountStr := toLowerCase (trim (pick (amounts cols) i)) in
        if negb (nonEmpty sender) || negb (nonEmpty recipient)
           || negb (nonEmpty amountStr) then [] else
        (fun coin : string * string =>
           {| ev_sender := sender; ev_recipient := recipient;
              ev_amount := AmountString (fst coin); ev_denom := snd coin;
              ev_txhash := txHash |}) <$> parseCoins amountStr)
     (seq 0 count)).

Definition recordsOf (candidate : option json) : list props_t :=
  match candidate with
  | Some (JArr l) => omap (fun event => asRecord (Some event)) l
  | _ => []
  end.

Definition extractFromTendermintEventArray (payload : json) : result (list TxSendEvent) :=
  match asRecord (Some payload) with
  | None => Ok []
  | Some root =>
      match extractTxHash payload with
      | None => Ok []
      | Some txHash =>
          if negb (nonEmpty txHash) then Ok [] else
          let result := asRecord (get "result" root) in
          let data := asRecord (getOpt "data" result) in
          let value := asRecord (getOpt "value" data) in
          let txResultContainer := asRecord (getOpt "TxResult" value) in
          let txResult := asRecord (getOpt "result" txResultContainer) in
          let allEvents := recordsOf (getOpt "events" txResult)
                           ++ recordsOf (getOpt "events" result) in
          collectM (transfersOfEvent txHash) allEvents
      end
  end.

(** One entry of [funds] or of [amount] in a message body. *)
Definition coinCandidate (sender recipient txHash : string) (coinRaw : json)
  : result (list TxSendEvent) :=
  match asRecord (Some coinRaw) with
  | None => Ok []
  | Some coin =>
      d ← String_or_empty (get "denom" coin);
      let denom := toLowerCase (trim d) in
      a ← String_or_empty (get "amount" coin);
      let amount := trim a in
      if negb (nonEmpty denom) || negb (nonEmpty amount) then Ok [] else
      Ok [ {| ev_sender := sender; ev_recipient := recipient;
              ev_amount := AmountString amount; ev_denom := denom;
              ev_txhash := txHash |} ]
  end.

(** The visitor [extractFromMessageBodies] hands to [walk]. *)
Definition visitMessageBody (txHash : string) (value : json) : result (list TxSendEvent) :=
  match asRecord (Some value) with
  | None => Ok []
  | Some obj =>
      msgType ← String_or_empty (get "@type" obj);
      fromExecute ←
        (if String.eqb msgType "/cosmwasm.wasm.v1.MsgExecuteContract" then
           match get "sender" obj, get "contract" obj, get "funds" obj with
           | Some (JStr sender), Some (JStr contract), Some (JArr funds) =>
               collectM (coinCandidate sender contract txHash) funds
           | _, _, _ => Ok []
           end
         else Ok []);
      fromSend ←
        (if String.eqb msgType "/cosmos.bank.v1beta1.MsgSend" then
           match get "from_address" obj, get "to_address" obj, get "amount" obj with
           | Some (JStr from), Some (JStr to), Some (JArr coins) =>
               collectM (coinCandidate from to txHash) coins
           | _, _, _ => Ok []
           end
         else Ok []);
      Ok (fromExecute ++ fromSend)
  end.

Definition extractFromMessageBodies (payload : json) : result (list TxSendEvent) :=
  match extractTxHash payload with
  | None => Ok []
  | Some txHash =>
      if negb (nonEmpty txHash) then Ok [] else
      collectM (visitMessageBody txHash) (walk payload)
  end.

Inductive strategy :=
| DirectScan
| CosmosEventStyle
| TendermintEventArray
| MessageBodies.

Definition nonNil {A} (l : list A) : bool :=
  match l with [] => false | _ :: _ => true end.

(** [extractTxSendEvents], with the strategies it ran, in order. *)
Definition extractTxSendEvents_run (payload : json)
  : list strategy * result (list TxSendEvent) :=
  let found := omap isTxSendEvent (walk payload) in
  if nonNil found then ([DirectScan], Ok found) else
  let cosmosStyle := extractFromCosmosEventStyle payload in
  if nonNil cosmosStyle then ([DirectScan; CosmosEventStyle], Ok cosmosStyle) else
  match extractFromTendermintEventArray payload with
  | Throw e => ([DirectScan; CosmosEventStyle; TendermintEventArray], Throw e)
  | Ok tendermintEvents =>
      if nonNil tendermintEvents
      then ([DirectScan; CosmosEventStyle; TendermintEventArray], Ok tendermintEvents)
      else ([DirectScan; CosmosEventStyle; TendermintEventArray; MessageBodies],
            extractFromMessageBodies payload)
  end.

Definition extractTxSendEvents (payload : json) : result (list TxSendEvent) :=
  snd (extractTxSendEvents_run payload).


End Extraction.

(** ** [monitor.ts]: context enrichment *)

Fixpoint collectWasmAttrs (attrs : list json) (values : gmap string string)
  : result (gmap string string) :=
  match attrs with
  | [] => Ok values
  | attrRaw :: r =>
      match asRecord (Some attrRaw) with
      | None => collectWasmAttrs r values
      | Some attr =>
          k ← String_or_empty (get "key" attr);
          let key := trim k in
          v ← String_or_empty (get "value" attr);
          let value := trim v in
          collectWasmAttrs r
            (if nonEmpty key && nonEmpty value then <[key := value]> values else values)
      end
  end.

Fixpoint extractWasmContextFromEvents (events : list json) : result (option TxContext) :=
  match events with
  | [] => Ok None
  | eventRaw :: r =>
      match asRecord (Some eventRaw) with
      | None => extractWasmContextFromEvents r
      | Some event =>
          ty ← String_or_empty (get "type" event);
          if negb (String.eqb (toLowerCase ty) "wasm")
          then extractWasmContextFromEvents r else
          let attrs := match get "attributes" event with
                       | Some (JArr l) => l
                       | _ => []
                       end in
          values ← collectWasmAttrs attrs ∅;
          Ok (Some {| eventType := Some "wasm";
                      contractAddress := or_null (values !! "_contract_address");
                      action := or_null (values !! "action");
                      offerAsset := or_null (values !! "offer_asset");
                      askAsset := or_null (values !! "ask_asset");
                      offerAmount := or_null (values !! "offer_amount");
                      returnAmount := or_null (values !! "return_amount") |})
      end
  end.

Definition extractWasmContextFromEventArray (eventsRaw : option json)
  : result (option TxContext) :=
  match eventsRaw with
  | Some (JArr events) => extractWasmContextFromEvents events
  | _ => Ok None
  end.

Fixpoint extractWasmContextFromLogList (logs : list json) : result (option TxContext) :=
  match logs with
  | [] => Ok None
  | logRaw :: r =>
      match asRecord (Some logRaw) with
      | None => extractWasmContextFromLogList r
      | Some log =>
          match get "events" log with
          | Some (JArr events) =>
              ctx ← extractWasmContextFromEvents events;
              match ctx with
              | Some c => Ok (Some c)
              | None => extractWasmContextFromLogList r
              end
          | _ => extractWasmContextFromLogList r
          end
      end
  end.

Definition extractWasmContextFromLogs (logs : option json) : result (option TxContext) :=
  match logs with
  | Some (JArr l) => extractWasmContextFromLogList l
  | _ => Ok None
  end.

Definition extractTxContextFromLcd (payload : json) : result (option TxContext) :=
  match asRecord (Some payload) with
  | None => Ok None
  | Some root =>
      let txResponse := asRecord (get "tx_response" root) in
      fromLogs ← extractWasmContextFromLogs (getOpt "logs" txResponse);
      match fromLogs with
      | Some c => Ok (Some c)
      | None => extractWasmContextFromEventArray (getOpt "events" txResponse)
      end
  end.

Definition txUrl (cfg : AppConfig) (txHash : string) : string :=
  stripTrailingSlashes (lcdUrl cfg) +:+ "/cosmos/tx/v1beta1/txs/" +:+ txHash.

Definition cacheSet (txHash : string) (context : TxContext) (st : Monitor) : Monitor := {|
  seenTxHashes := seenTxHashes st;
  txOrder := txOrder st;
  nonEventMessageCount := nonEventMessageCount st;
  txContextCache := <[txHash := Some context]> (txContextCache st);
  effects := effects st
|}.

(** The body of the [try] in [getTxContext]: the context one attempt
    yields, [None] when the [try] falls through or lands in the [catch]. *)
Definition attemptContext (o : http_outcome) : option TxContext :=
  match o with
  | Rejected => None
  | Response ok _ body =>
      if negb ok then None else
      match body with
      | None => None
      | Some payload =>
          match extractTxContextFromLcd payload with
          | Ok (Some context) => Some context
          | Ok None => None
          | Throw _ => None
          end
      end
  end.

Section Coordinator.

Variable JSON_parse : string -> option json.
Variable base64_utf8 : string -> string.

(** The outcome of the [n]-th [fetch] of the process, sent to [url]. *)
Variable http : nat -> string -> http_outcome.

Variable cfg : AppConfig.

(** The rounds of [for (let attempt = 1; attempt <= 3; attempt += 1)] that
    are still to run. *)
Fixpoint getTxContext_from (attempts : list Z) (url txHash : string) (st : Monitor)
  : option TxContext * Monitor :=
  match attempts with
  | [] => (None, st)
  | attempt :: later =>
      let outcome := http (fetchCount st) url in
      let st1 := emit (Fetch url) st in
      match attemptContext outcome with
      | Some context => (Some context, cacheSet txHash context st1)
      | None =>
          let st2 := if attempt <? 3 then emit (Sleep 1200) st1 else st1 in
          getTxContext_from later url txHash st2
      end
  end.

Definition getTxContext (txHash : string) (st : Monitor) : option TxContext * Monitor :=
  match txContextCache st !! txHash with
  | Some cached => (cached, st)
  | None => getTxContext_from [1; 2; 3] (txUrl cfg txHash) txHash st
  end.

(** [txContext?.field || fallback] *)
Definition ctxField (txContext : option TxContext) (f : TxContext -> option string)
  : option string :=
  match txContext with
  | Some c => or_null (f c)
  | None => None
  end.

(** [sendAlert]: the notifier is called once; its rejection is caught. *)
Definition sendAlert (transfer : NormalizedTransfer) (wallet : string)
    (direction : Direction) (amountZig : string) (txContext : option TxContext)
    (st : Monitor) : Monitor :=
  emit (Notify {|
    al_wallet := wallet;
    al_direction := direction;
    al_amountZig := amountZig;
    al_amountUzig := BigInt_toString (nt_amountUzig transfer);
    al_denom := nt_denom transfer;
    al_txHash := nt_txhash transfer;
    al_sender := nt_sender transfer;
    al_recipient := nt_recipient transfer;
    al_eventType := or_default (ctxField txContext eventType) "wasm";
    al_contractAddress :=
      or_default (ctxField txContext contractAddress) (nt_recipient transfer);
    al_action := ctxField txContext action;
    al_offerAsset := ctxField txContext offerAsset;
    al_askAsset := ctxField txContext askAsset;
    al_offerAmount := ctxField txContext offerAmount;
    al_returnAmount := ctxField txContext returnAmount
  |}) st.

(** One round of the inner [for] of [handleRawMessage]. *)
Definition processTransfer (txContext : option TxContext)
    (normalized : NormalizedTransfer) (st : Monitor) : result unit * Monitor :=
  let senderMatch := bool_decide (nt_sender normalized ∈ monitoredWallets cfg) in
  let recipientMatch := bool_decide (nt_recipient normalized ∈ monitoredWallets cfg) in
  if negb senderMatch && negb recipientMatch then (Ok tt, st) else
  if negb (String.eqb (nt_denom normalized) "uzig") then (Ok tt, st) else
  if nt_amountUzig normalized <? minAmountUzig cfg then (Ok tt, st) else
  match formatZigAmount cfg (nt_amountUzig normalized) with
  | Throw e => (Throw e, st)
  | Ok amountZig =>
      let st1 := if senderMatch
                 then sendAlert normalized (nt_sender normalized) Sent amountZig txContext st
                 else st in
      let st2 := if recipientMatch
                 then sendAlert normalized (nt_recipient normalized) Received amountZig
                        txContext st1
                 else st1 in
      (Ok tt, st2)
  end.

Fixpoint processTransfers (txContext : option TxContext)
    (transfers : list NormalizedTransfer) (st : Monitor) : result unit * Monitor :=
  match transfers with
  | [] => (Ok tt, st)
  | normalized :: r =>
      match processTransfer txContext normalized st with
      | (Ok _, st') => processTransfers txContext r st'
      | (Throw e, st') => (Throw e, st')
      end
  end.

(** One round of the outer [for]: one bucket of [txBuckets]. *)
Definition processBucket (bucket : string * list NormalizedTransfer) (st : Monitor)
  : result unit * Monitor :=
  let '(txHash, transfers) := bucket in
  let '(txContext, st1) := getTxContext txHash st in
  match processTransfers txContext transfers st1 with
  | (Ok _, st2) => (Ok tt, markSeen cfg txHash st2)
  | (Throw e, st2) => (Throw e, st2)
  end.

Fixpoint processBuckets (buckets : list (string * list NormalizedTransfer))
    (st : Monitor) : result unit * Monitor :=
  match buckets with
  | [] => (Ok tt, st)
  | bucket :: r =>
      match processBucket bucket st with
      | (Ok _, st') => processBuckets r st'
      | (Throw e, st') => (Throw e, st')
      end
  end.

(** [txBuckets]: a [Map], iterated in insertion order. *)
Fixpoint bucketPush (normalized : NormalizedTransfer)
    (txBuckets : list (string * list NormalizedTransfer))
  : list (string * list NormalizedTransfer) :=
  match txBuckets with
  | [] => [(nt_txhash normalized, [normalized])]
  | (h, existing) :: r =>
      if String.eqb (nt_txhash normalized) h
      then (h, existing ++ [normalized]) :: r
      else (h, existing) :: bucketPush normalized r
  end.

Fixpoint fillBuckets (seen : gset string) (events : list TxSendEvent)
    (txBuckets : list (string * list NormalizedTransfer))
  : list (string * list NormalizedTransfer) :=
  match events with
  | [] => txBuckets
  | event :: r =>
      match normalizeTransfer event with
      | None => fillBuckets seen r txBuckets
      | Some normalized =>
          if bool_decide (nt_txhash normalized ∈ seen)
          then fillBuckets seen r txBuckets
          else fillBuckets seen r (bucketPush normalized txBuckets)
      end
  end.

Definition bumpNonEvent (st : Monitor) : Monitor := {|
  seenTxHashes := seenTxHashes st;
  txOrder := txOrder st;
  nonEventMessageCount := nonEventMessageCount st + 1;
  txContextCache := txContextCache st;
  effects := effects st
|}.

Definition logNonEventMessage (payload : json) (st : Monitor) : Monitor :=
  match asRecord (Some payload) with
  | None => st
  | Some obj =>
      match asRecord (get "error" obj) with
      | Some _ => st
      | None =>
          let result := asRecord (get "result" obj) in
          match asString (getOpt "query" result) with
          | Some q => if nonEmpty q then st else bumpNonEvent st
          | None => bumpNonEvent st
          end
      end
  end.

Definition handleRawMessage (raw : string) (st : Monitor) : result unit * Monitor :=
  match JSON_parse raw with
  | None => (Ok tt, st)
  | Some parsed =>
      match extractTxSendEvents base64_utf8 parsed with
      | Throw e => (Throw e, st)
      | Ok events =>
          if negb (nonNil events) then (Ok tt, logNonEventMessage parsed st) else
          let txBuckets := fillBuckets (seenTxHashes st) events [] in
          processBuckets txBuckets st
      end
  end.

End Coordinator.

(** ** [index.ts]: handler runs that overlap

    [index.ts] starts [handleRawMessage] on every frame and does not await
    it ([void monitor.handleRawMessage(raw)]): a run that has reached an
    [await] shares the monitor with every run started or resumed before it
    goes on.  Between two [await]s a run is not interrupted.  Every [await]
    of [handleRawMessage] and [getTxContext] is a place where a run gives up
    control: the [fetch] (with the [response.json()] that follows it, the run
    touching nothing of the monitor in between), the 1200 ms pause, the
    promise of [getTxContext] (also when the cache answered), and the
    notifier. *)

Definition Bucket : Type := string * list NormalizedTransfer.

(** Where a run waits, with what it still has to do: the transfers of the
    bucket it is in and the buckets after it.
    - [AtFetch]: request number [request] of the process is in flight, for
      round [attempt] of the lookup loop.
    - [AtSleep]: the pause after round [attempt].
    - [AtContext]: [getTxContext] has returned [txContext]; the run waits
      for its promise.
    - [AtAlert]: the notifier was called for [normalized]; [thenReceived]
      says that the [Received] alert of the same transfer comes next. *)
Inductive Suspended :=
| AtFetch (request : nat) (attempt : Z) (txHash : string)
    (transfers : list NormalizedTransfer) (rest : list Bucket)
| AtSleep (attempt : Z) (txHash : string)
    (transfers : list NormalizedTransfer) (rest : list Bucket)
| AtContext (txContext : option TxContext) (txHash : string)
    (transfers : list NormalizedTransfer) (rest : list Bucket)
| AtAlert (thenReceived : bool) (amountZig : string) (txContext : option TxContext)
    (normalized : NormalizedTransfer) (later : list NormalizedTransfer)
    (txHash : string) (rest : list Bucket).

(** A run has returned (or its promise is rejected), or it waits. *)
Inductive Progress :=
| Finished (r : result unit)
| Waits (at_ : Suspended).

(** The monitor and the runs that wait, oldest first. *)
Record System := {
  monitor : Monitor;
  waiting : list Suspended
}.

Definition newSystem : System := {| monitor := newMonitor; waiting := [] |}.

(** What happens next: a frame arrives, or the [i]-th waiting run goes
    on. *)
Inductive Happening :=
| Delivered (raw : string)
| Resumed (i : nat).

Section Overlap.

Variable JSON_parse : string -> option json.
Variable base64_utf8 : string -> string.
Variable http : nat -> string -> http_outcome.
Variable cfg : AppConfig.

(** The outer [for] from the buckets that are left: [getTxContext] is
    called for the first of them, and the run waits, for the answer of the
    cache or for the first request. *)
Definition runBuckets (buckets : list Bucket) (st : Monitor) : Progress * Monitor :=
  match buckets with
  | [] => (Finished (Ok tt), st)
  | (txHash, transfers) :: rest =>
      match txContextCache st !! txHash with
      | Some cached => (Waits (AtContext cached txHash transfers rest), st)
      | None =>
          (Waits (AtFetch (fetchCount st) 1 txHash transfers rest),
           emit (Fetch (txUrl cfg txHash)) st)
      end
  end.

(** The inner [for] from the transfers that are left, up to the next
    [await]; at its end the hash is marked and the outer loop goes on. *)
Fixpoint runBucket (txContext : option TxContext) (txHash : string)
    (rest : list Bucket) (transfers : list NormalizedTransfer) (st : Monitor)
  : Progress * Monitor :=
  match transfers with
  | [] => runBuckets rest (markSeen cfg txHash st)
  | normalized :: later =>
      let senderMatch := bool_decide (nt_sender normalized ∈ monitoredWallets cfg) in
      let recipientMatch := bool_decide (nt_recipient normalized ∈ monitoredWallets cfg) in
      if negb senderMatch && negb recipientMatch
      then runBucket txContext txHash rest later st else
      if negb (String.eqb (nt_denom normalized) "uzig")
      then runBucket txContext txHash rest later st else
      if nt_amountUzig normalized <? minAmountUzig cfg
      then runBucket txContext txHash rest later st else
      match formatZigAmount cfg (nt_amountUzig normalized) with
      | Throw e => (Finished (Throw e), st)
      | Ok amountZig =>
          if senderMatch
          then (Waits (AtAlert recipientMatch amountZig txContext normalized later
                         txHash rest),
                sendAlert normalized (nt_sender normalized) Sent amountZig txContext st)
          else (Waits (AtAlert false amountZig txContext normalized later txHash rest),
                sendAlert normalized (nt_recipient normalized) Received amountZig
                  txContext st)
      end
  end.

(** A run goes on from where it waited, up to its next [await]. *)
Definition resume (at_ : Suspended) (st : Monitor) : Progress * Monitor :=
  match at_ with
  | AtFetch request attempt txHash transfers rest =>
      match attemptContext (http request (txUrl cfg txHash)) with
      | Some context =>
          (Waits (AtContext (Some context) txHash transfers rest),
           cacheSet txHash context st)
      | None =>
          if attempt <? 3
          then (Waits (AtSleep attempt txHash transfers rest), emit (Sleep 1200) st)
          else (Waits (AtContext None txHash transfers rest), st)
      end
  | AtSleep attempt txHash transfers rest =>
      (Waits (AtFetch (fetchCount st) (attempt + 1) txHash transfers rest),
       emit (Fetch (txUrl cfg txHash)) st)
  | AtContext txContext txHash transfers rest =>
      runBucket txContext txHash rest transfers st
  | AtAlert thenReceived amountZig txContext normalized later txHash rest =>
      if thenReceived
      then (Waits (AtAlert false amountZig txContext normalized later txHash rest),
            sendAlert normalized (nt_recipient normalized) Received amountZig
              txContext st)
      else runBucket txContext txHash rest later st
  end.

(** [handleRawMessage] from its first line up to its first [await]. *)
Definition startHandler (raw : string) (st : Monitor) : Progress * Monitor :=
  match JSON_parse raw with
  | None => (Finished (Ok tt), st)
  | Some parsed =>
      match extractTxSendEvents base64_utf8 parsed with
      | Throw e => (Finished (Throw e), st)
      | Ok events =>
          if negb (nonNil events) then (Finished (Ok tt), logNonEventMessage parsed st) else
          runBuckets (fillBuckets (seenTxHashes st) events []) st
      end
  end.

(** The system once a run has given up control: a run that waits joins the
    waiting runs. *)
Definition settle (others : list Suspended) (p : Progress * Monitor) : System :=
  match p with
  | (Finished _, st) => {| monitor := st; waiting := others |}
  | (Waits at_, st) => {| monitor := st; waiting := others ++ [at_] |}
  end.

Definition step (sys : System) (h : Happening) : System :=
  match h with
  | Delivered raw => settle (waiting sys) (startHandler raw (monitor sys))
  | Resumed i =>
      match waiting sys !! i with
      | Some at_ => settle (delete i (waiting sys)) (resume at_ (monitor sys))
      | None => sys
      end
  end.

Definition run (happenings : list Happening) (sys : System) : System :=
  foldl step sys happenings.

End Overlap.

(** ** [websocket.ts] *)

Module Ws.

(** What the client does to the outside, in order: a frame sent on the
    socket (the value handed to [JSON.stringify]), a frame handed to
    [options.onMessage], the reconnect timer being armed. *)
Inductive effect :=
| Send (payload : json)
| Deliver (raw : string)
| ReconnectIn (delayMs : Z).

(** The fields of [ZigWebSocketClient] behind subscription and reconnect;
    [socketOpen] stands for [this.ws] being set with [readyState] [OPEN].
    The heartbeat timer and [lastPongAt] are left out. *)
Record Client := {
  socketOpen : bool;
  reconnectAttempts : Z;
  intentionalClose : bool;
  subscriptionIndex : nat;
  subscriptionId : Z;
  subscriptionConfirmed : bool;
  effects : list effect
}.

Definition subscriptionQueries : list string := [ "tm.event='Tx'" ].

Definition newClient : Client := {|
  socketOpen := false;
  reconnectAttempts := 0;
  intentionalClose := false;
  subscriptionIndex := 0;
  subscriptionId := 1;
  subscriptionConfirmed := false;
  effects := []
|}.

Definition emit (e : effect) (c : Client) : Client := {|
  socketOpen := socketOpen c;
  reconnectAttempts := reconnectAttempts c;
  intentionalClose := intentionalClose c;
  subscriptionIndex := subscriptionIndex c;
  subscriptionId := subscriptionId c;
  subscriptionConfirmed := subscriptionConfirmed c;
  effects := effects c ++ [e]
|}.

Definition delivered (l : list effect) : list string :=
  omap (fun e => match e with Deliver raw => Some raw | _ => None end) l.

(** [Math.min(max, base * 2 ** attempt)]; every value it takes for an
    integer [attempt >= 0] is an integer a double holds exactly, or is cut
    to [max]. *)
Definition backoffFloor (attempt : Z) : Z :=
  let base := 1000 in
  let max := 30000 in
  Z.min max (base * 2 ^ attempt).

(** The double 250. *)
Definition double_250 : spec_float := S754_finite false 8796093022208000 (-45).

(** [Math.floor] of a finite double, as an integer. *)
Definition Math_floor (x : spec_float) : Z :=
  match x with
  | S754_finite s m e =>
      let n := if s then Zneg m else Zpos m in
      if 0 <=? e then n * 2 ^ e else n / 2 ^ (- e)
  | _ => 0
  end.


(** [Math.floor(Math.random() * 250)]: the product is the binary64 product,
    rounded to nearest, ties to even.  [Math.random()] is the argument
    [rnd]. *)
Definition jitterOf (rnd : spec_float) : Z := Math_floor (SFmul 53 1024 rnd double_250).

Definition calculateBackoffMs (attempt : Z) (rnd : spec_float) : Z :=
  let backoff := backoffFloor attempt in
  let jitter := jitterOf rnd in
  backoff + jitter.

Definition scheduleReconnect (rnd : spec_float) (c : Client) : Client :=
  let delayMs := calculateBackoffMs (reconnectAttempts c) rnd in
  emit (ReconnectIn delayMs) {|
    socketOpen := socketOpen c;
    reconnectAttempts := reconnectAttempts c + 1;
    intentionalClose := intentionalClose c;
    subscriptionIndex := subscriptionIndex c;
    subscriptionId := subscriptionId c;
    subscriptionConfirmed := subscriptionConfirmed c;
    effects := effects c
  |}.

Definition subscribePayload (id : Z) (query : option string) : json :=
  JObj ([ ("jsonrpc", JStr "2.0");
          ("id", JNum (BigInt_toString id));
          ("method", JStr "subscribe");
          ("params", JObj match query with
                          | Some q => [ ("query", JStr q) ]
                          | None => []
                          end) ]).

Definition subscribeCurrentQuery (c : Client) : Client :=
  if negb (socketOpen c) then c else
  let query := subscriptionQueries !! subscriptionIndex c in
  let id := subscriptionId c + 1 in
  emit (Send (subscribePayload id query)) {|
    socketOpen := socketOpen c;
    reconnectAttempts := reconnectAttempts c;
    intentionalClose := intentionalClose c;
    subscriptionIndex := subscriptionIndex c;
    subscriptionId := id;
    subscriptionConfirmed := subscriptionConfirmed c;
    effects := effects c
  |}.

Definition withSubscription (index : nat) (confirmed : bool) (c : Client) : Client := {|
  socketOpen := socketOpen c;
  reconnectAttempts := reconnectAttempts c;
  intentionalClose := intentionalClose c;
  subscriptionIndex := index;
  subscriptionId := subscriptionId c;
  subscriptionConfirmed := confirmed;
  effects := effects c
|}.

Section Handlers.

Variable JSON_parse : string -> option json.

Definition handleSubscriptionResponse (raw : string) (c : Client) : Client :=
  match JSON_parse raw with
  | None => c
  | Some parsed =>
      match asRecord (Some parsed) with
      | None => c
      | Some obj =>
          match get "id" obj with
          | Some (JNum id) =>
              if negb (String.eqb id (BigInt_toString (subscriptionId c))) then c else
              if truthy (get "error" obj)
                 && (subscriptionIndex c <? length subscriptionQueries - 1)%nat
              then subscribeCurrentQuery
                     (withSubscription (subscriptionIndex c + 1) false c)
              else if truthy (get "result" obj) && negb (subscriptionConfirmed c)
              then withSubscription (subscriptionIndex c) true c
              else c
          | _ => c
          end
      end
  end.

(** The ["message"] listener. *)
Definition onMessage (raw : string) (c : Client) : Client :=
  emit (Deliver raw) (handleSubscriptionResponse raw c).

(** The ["open"] listener. *)
Definition onOpen (c : Client) : Client :=
  subscribeCurrentQuery {|
    socketOpen := true;
    reconnectAttempts := 0;
    intentionalClose := intentionalClose c;
    subscriptionIndex := 0;
    subscriptionId := subscriptionId c;
    subscriptionConfirmed := false;
    effects := effects c
  |}.

(** The ["close"] listener; [rnd] is what [Math.random()] returns if the
    reconnect is scheduled. *)
Definition onClose (rnd : spec_float) (c : Client) : Client :=
  let c' := {|
    socketOpen := false;
    reconnectAttempts := reconnectAttempts c;
    intentionalClose := intentionalClose c;
    subscriptionIndex := subscriptionIndex c;
    subscriptionId := subscriptionId c;
    subscriptionConfirmed := subscriptionConfirmed c;
    effects := effects c
  |} in
  if intentionalClose c then c' else scheduleReconnect rnd c'.

(** The frames of a connection, handled one after the other. *)
Definition onMessages (frames : list string) (c : Client) : Client :=
  foldl (fun c raw => onMessage raw c) c frames.

End Handlers.

End Ws.

(** ** Reference instances of the built-ins

    [JSON.parse] and [Buffer.from(s, "base64").toString("utf-8")] are
    parameters of the development.  The instances below, for texts in ASCII,
    are what the examples run on. *)

Module Node.

Definition dquote : ascii := "034"%char.

Definition isJsonSpace (c : ascii) : bool :=
  is_char " " c || (code c =? 9)%N || (code c =? 10)%N || (code c =? 13)%N.

Fixpoint skipSpace (s : string) : string :=
  match s with
  | String c r => if isJsonSpace c then skipSpace r else s
  | EmptyString => EmptyString
  end.

Definition hexValue (c : ascii) : option N :=
  if isDigit c then Some (code c - 48)%N
  else if in_range 97 102 c then Some (code c - 87)%N
  else if in_range 65 70 c then Some (code c - 55)%N
  else None.

(** The characters of a string literal after its opening quote, and what
    follows the closing quote. *)
Fixpoint parseChars (s : string) : option (string * string) :=
  match s with
  | EmptyString => None
  | String c r =>
      if is_char dquote c then Some (EmptyString, r) else
      if (code c <? 32)%N then None else
      if is_char "\" c then
        match r with
        | String e r' =>
            let simple (x : ascii) :=
              match parseChars r' with
              | Some (t, rest) => Some (String x t, rest)
              | None => None
              end in
            if is_char dquote e then simple dquote
            else if is_char "\" e then simple "\"%char
            else if is_char "/" e then simple "/"%char
            else if is_char "b" e then simple "008"%char
            else if is_char "f" e then simple "012"%char
            else if is_char "n" e then simple "010"%char
            else if is_char "r" e then simple "013"%char
            else if is_char "t" e then simple "009"%char
            else if is_char "u" e then
              match r' with
              | String h1 (String h2 (String h3 (String h4 r''))) =>
                  match hexValue h1, hexValue h2, hexValue h3, hexValue h4 with
                  | Some 0%N, Some 0%N, Some a, Some b =>
                      match parseChars r'' with
                      | Some (t, rest) => Some (String (ascii_of_N (16 * a + b)) t, rest)
                      | None => None
                      end
                  | _, _, _, _ => None
                  end
              | _ => None
              end
            else None
        | EmptyString => None
        end
      else
        match parseChars r with
        | Some (t, rest) => Some (String c t, rest)
        | None => None
        end
  end.

(** The double nearest to [digits * 10^exp10], ties to even; an infinity
    when that is out of range. *)
Definition decimalToDouble (digits : positive) (exp10 : Z) : spec_float :=
  if 0 <=? exp10
  then binary_normalize 53 1024 (Zpos digits * 10 ^ exp10) 0 false
  else SFdiv 53 1024 (S754_finite false digits 0)
         (S754_finite false (Z.to_pos (10 ^ (- exp10))) 0).

(** [num / den < 10^n] *)
Definition belowPow10 (num den n : Z) : bool :=
  if 0 <=? n then num <? den * 10 ^ n else num * 10 ^ (- n) <? den.

(** The least [n] from [from] on with [num / den < 10^n]. *)
Fixpoint decimalPoint (fuel : nat) (num den from : Z) : Z :=
  match fuel with
  | O => from
  | S f => if belowPow10 num den from then from else decimalPoint f num den (from + 1)
  end.

(** The shortest decimal that reads back as the double [m * 2^e], nearest
    to it among the shortest: its digits, and the place [n] of its decimal
    point ([0.digits * 10^n]). *)
Fixpoint shortestFrom (fuel : nat) (k : Z) (m : positive) (e : Z) (num den n : Z)
  : string * Z :=
  let x := S754_finite false m e in
  (* num / den * 10^(k - n), as scaledNum / scaledDen *)
  let '(scaledNum, scaledDen) :=
    if 0 <=? k - n then (num * 10 ^ (k - n), den) else (num, den * 10 ^ (n - k)) in
  let lo := scaledNum / scaledDen in
  let hi := lo + 1 in
  let okLo := if 0 <? lo then SFeqb (decimalToDouble (Z.to_pos lo) (n - k)) x else false in
  let okHi := SFeqb (decimalToDouble (Z.to_pos hi) (n - k)) x in
  let twiceRem := 2 * (scaledNum - lo * scaledDen) in
  let pickHi := if twiceRem <? scaledDen then false
                else if scaledDen <? twiceRem then true
                else Z.odd lo in
  let chosen := if okLo && okHi then (if pickHi then Some hi else Some lo)
                else if okLo then Some lo
                else if okHi then Some hi
                else None in
  match chosen, fuel with
  | Some s, _ =>
      let text := BigInt_toString s in
      (text, if (Z.of_nat (String.length text) =? k) then n else n + 1)
  | None, S f => shortestFrom f (k + 1) m e num den n
  | None, O => (BigInt_toString lo, n)
  end.

Definition stripZeros (s : string) : string :=
  match stripTrailingZeros s with
  | EmptyString => "0"
  | t => t
  end.

(** [Number::toString] of a positive finite double. *)
Definition positiveToString (m : positive) (e : Z) : string :=
  let '(num, den) := if 0 <=? e then (Zpos m * 2 ^ e, 1) else (Zpos m, 2 ^ (- e)) in
  let n0 := decimalPoint 700 num den (-330) in
  let '(raw, n) := shortestFrom 17 1 m e num den n0 in
  let digits := stripZeros raw in
  let k := Z.of_nat (String.length digits) in
  if (k <=? n) && (n <=? 21) then digits +:+ repeatChar "0" (Z.to_nat (n - k))
  else if (0 <? n) && (n <=? 21)
  then substring 0 (Z.to_nat n) digits +:+ "." +:+ substring (Z.to_nat n) (Z.to_nat (k - n)) digits
  else if (-6 <? n) && (n <=? 0)
  then "0." +:+ repeatChar "0" (Z.to_nat (- n)) +:+ digits
  else
    let exponent := (if 0 <? n - 1 then "+" else "-") +:+ BigInt_toString (Z.abs (n - 1)) in
    if k =? 1 then digits +:+ "e" +:+ exponent
    else substring 0 1 digits +:+ "." +:+ substring 1 (Z.to_nat (k - 1)) digits
         +:+ "e" +:+ exponent.

(** [String(n)] for what [JSON.parse] makes of a number literal with the
    given sign, digits and power of ten. *)
Definition literalToString (negative : bool) (digits : Z) (exp10 : Z) : string :=
  match digits with
  | Zpos d =>
      match decimalToDouble d exp10 with
      | S754_finite _ m e => (if negative then "-" else EmptyString) +:+ positiveToString m e
      | S754_infinity _ => (if negative then "-" else EmptyString) +:+ "Infinity"
      | _ => "0"
      end
  | _ => "0"
  end.

(** A number literal: [-? int frac? exp?].  Its value is carried as the
    text [String] gives for the double the literal denotes. *)
Definition parseNumber (s : string) : option (string * string) :=
  let '(negative, s1) := match s with
                         | String c r => if is_char "-" c then (true, r) else (false, s)
                         | EmptyString => (false, s)
                         end in
  let '(int, s2) := span isDigit s1 in
  let intOk := match int with
               | EmptyString => false
               | String c EmptyString => true
               | String c _ => negb (is_char "0" c)
               end in
  if negb intOk then None else
  let '(frac, s3) := match s2 with
                     | String c r =>
                         if is_char "." c
                         then let '(d, r') := span isDigit r in (Some d, r')
                         else (None, s2)
                     | EmptyString => (None, s2)
                     end in
  if match frac with Some EmptyString => true | _ => false end then None else
  let '(exp, s4) := match s3 with
                    | String c r =>
                        if is_char "e" c || is_char "E" c then
                          let '(minus, r1) := match r with
                                              | String g r0 =>
                                                  if is_char "+" g then (false, r0)
                                                  else if is_char "-" g then (true, r0)
                                                  else (false, r)
                                              | EmptyString => (false, r)
                                              end in
                          let '(d, r2) := span isDigit r1 in
                          (Some (minus, d), r2)
                        else (None, s3)
                    | EmptyString => (None, s3)
                    end in
  if match exp with Some (_, EmptyString) => true | _ => false end then None else
  let fraction := match frac with Some d => d | None => EmptyString end in
  let power := match exp with
               | Some (minus, d) => if minus then - BigInt_of_digits d else BigInt_of_digits d
               | None => 0
               end in
  Some (literalToString negative (BigInt_of_digits (int +:+ fraction))
          (power - Z.of_nat (String.length fraction)), s4).

(** [prefix] consumed from the front of [s]. *)
Fixpoint eat (prefix s : string) : option string :=
  match prefix, s with
  | EmptyString, _ => Some s
  | String p ps, String c r => if is_char p c then eat ps r else None
  | String _ _, EmptyString => None
  end.

(** A property defined again keeps its place and takes the new value. *)
Fixpoint setProp (k : string) (v : json) (ps : props_t) : props_t :=
  match ps with
  | [] => [(k, v)]
  | (k', v') :: r => if String.eqb k k' then (k, v) :: r else (k', v') :: setProp k v r
  end.

(** An array index as a property key: a canonical numeric string below
    [2^32 - 1]. *)
Definition arrayIndex (k : string) : option Z :=
  let canonical := match k with
                   | String c EmptyString => isDigit c
                   | String c _ => isDigit c && negb (is_char "0" c) && all_chars isDigit k
                   | EmptyString => false
                   end in
  if canonical && (String.length k <=? 10)%nat && (BigInt_of_digits k <? 4294967295)
  then Some (BigInt_of_digits k) else None.

Fixpoint insertIndexed (i : Z) (kv : string * json) (l : list (Z * (string * json)))
  : list (Z * (string * json)) :=
  match l with
  | [] => [(i, kv)]
  | (j, kv') :: r => if i <? j then (i, kv) :: l else (j, kv') :: insertIndexed i kv r
  end.

(** Own properties enumerate array indices first, ascending, then the other
    keys in creation order. *)
Definition enumerationOrder (ps : props_t) : props_t :=
  let indexed := foldr (fun kv acc => match arrayIndex (fst kv) with
                                       | Some i => insertIndexed i kv acc
                                       | None => acc
                                       end) [] ps in
  (snd <$> indexed)
  ++ filter (fun kv => arrayIndex (fst kv) = None) ps.

Fixpoint parseValue (fuel : nat) (s : string) : option (json * string) :=
  match fuel with
  | O => None
  | S fuel' =>
      match skipSpace s with
      | EmptyString => None
      | String c r as s0 =>
          if is_char "{" c then
            match skipSpace r with
            | String c' r' =>
                if is_char "}" c' then Some (JObj [], r') else parseMembers fuel' r []
            | EmptyString => None
            end
          else if is_char "[" c then
            match skipSpace r with
            | String c' r' =>
                if is_char "]" c' then Some (JArr [], r') else parseElements fuel' r []
            | EmptyString => None
            end
          else if is_char dquote c then
            match parseChars r with
            | Some (str, rest) => Some (JStr str, rest)
            | None => None
            end
          else if is_char "t" c then
            match eat "true" s0 with Some rest => Some (JBool true, rest) | None => None end
          else if is_char "f" c then
            match eat "false" s0 with Some rest => Some (JBool false, rest) | None => None end
          else if is_char "n" c then
            match eat "null" s0 with Some rest => Some (JNull, rest) | None => None end
          else
            match parseNumber s0 with
            | Some (repr, rest) => Some (JNum repr, rest)
            | None => None
            end
      end
  end
with parseElements (fuel : nat) (s : string) (acc : list json) : option (json * string) :=
  match fuel with
  | O => None
  | S fuel' =>
      match parseValue fuel' s with
      | None => None
      | Some (v, rest) =>
          match skipSpace rest with
          | String c r =>
              if is_char "," c then parseElements fuel' r (acc ++ [v])
              else if is_char "]" c then Some (JArr (acc ++ [v]), r)
              else None
          | EmptyString => None
          end
      end
  end
with parseMembers (fuel : nat) (s : string) (acc : props_t) : option (json * string) :=
  match fuel with
  | O => None
  | S fuel' =>
      match skipSpace s with
      | String q r =>
          if negb (is_char dquote q) then None else
          match parseChars r with
          | None => None
          | Some (key, rest) =>
              match skipSpace rest with
              | String colon rest' =>
                  if negb (is_char ":" colon) then None else
                  match parseValue fuel' rest' with
                  | None => None
                  | Some (v, rest'') =>
                      match skipSpace rest'' with
                      | String c r' =>
                          if is_char "," c then parseMembers fuel' r' (setProp key v acc)
                          else if is_char "}" c
                          then Some (JObj (enumerationOrder (setProp key v acc)), r')
                          else None
                      | EmptyString => None
                      end
                  end
              | EmptyString => None
              end
          end
      | EmptyString => None
      end
  end.

(** [JSON.parse(raw)]: [None] when it throws. *)
Definition JSON_parse (raw : string) : option json :=
  match parseValue (2 * String.length raw + 2) raw with
  | Some (v, rest) =>
      match skipSpace rest with
      | EmptyString => Some v
      | _ => None
      end
  | None => None
  end.

(** A text written with ['] in place of the double quote. *)
Fixpoint quoted (s : string) : string :=
  match s with
  | EmptyString => EmptyString
  | String c r => String (if is_char "'" c then dquote else c) (quoted r)
  end.

(** The six bits of a base64 character; [-] and [_] are read as well. *)
Definition sextet (c : ascii) : option N :=
  if isUpperAlpha c then Some (code c - 65)%N
  else if isLowerAlpha c then Some (code c - 71)%N
  else if isDigit c then Some (code c + 4)%N
  else if is_char "+" c || is_char "-" c then Some 62%N
  else if is_char "/" c || is_char "_" c then Some 63%N
  else None.

(** The sextets up to the first [=]; other characters are skipped. *)
Fixpoint sextets (s : string) : list N :=
  match s with
  | EmptyString => []
  | String c r =>
      if is_char "=" c then [] else
      match sextet c with
      | Some v => v :: sextets r
      | None => sextets r
      end
  end.

Fixpoint bytesOf (l : list N) : list N :=
  match l with
  | a :: b :: c :: d :: r =>
      (a * 4 + b / 16)%N :: ((b mod 16) * 16 + c / 4)%N :: ((c mod 4) * 64 + d)%N
      :: bytesOf r
  | [a; b; c] => [ (a * 4 + b / 16)%N; ((b mod 16) * 16 + c / 4)%N ]
  | [a; b] => [ (a * 4 + b / 16)%N ]
  | _ => []
  end.

(** Bytes below 128 are the characters they encode; a byte above stands for
    the non-ASCII text it decodes to. *)
Definition base64_utf8 (s : string) : string :=
  string_of_list_ascii (ascii_of_N <$> bytesOf (sextets s)).

End Node.

(** * Properties

    ** Definitions the statements use *)

(** [markSeen] called on each hash of a sequence, in order. *)
Definition markAll (cfg : AppConfig) (hashes : list string) (st : Monitor) : Monitor :=
  foldl (fun st h => markSeen cfg h st) st hashes.

(** A configuration with capacity [N]. *)
Definition ledgerConfig (N : nat) : AppConfig := {|
  lcdUrl := EmptyString; monitoredWallets := ∅; minAmountUzig := 0;
  zigDecimals := 1000000; maxSeenTxHashes := Z.of_nat N |}.





Definition isDot (c : ascii) : bool := is_char "." c.

(** The last character of a string, if any. *)
Definition lastChar (s : string) : option ascii :=
  match unsnoc s with
  | Some (_, c) => Some c
  | None => None
  end.

(** The characters of a bigint rendered in decimal. *)
Definition isDigitOrMinus (c : ascii) : bool := isDigit c || is_char "-" c.

(** [+] or [=], the two base64 characters a plain token cannot hold. *)
Definition isPlusOrEquals (c : ascii) : bool := is_char "+" c || is_char "=" c.

(** A response whose [ok] is false: a non-success HTTP status. *)
Definition isNonSuccess (o : http_outcome) : bool :=
  match o with
  | Response false _ _ => true
  | _ => false
  end.

(** The three requests and two pauses of a lookup that fails throughout. *)
Definition failedLookupEffects (url : string) : list effect :=
  [Fetch url; Sleep 1200; Fetch url; Sleep 1200; Fetch url].

(** An HTTP 200 whose body holds no wasm event. *)
Definition httpNoWasm : nat -> string -> http_outcome :=
  fun _ _ => Response true 200 (Some (JObj [("tx_response", JObj [("logs", JArr [])])])).

(** An HTTP 500 on every request. *)
Definition http500 : nat -> string -> http_outcome :=
  fun _ _ => Response false 500 None.

(** The configuration of the specification's scenarios: watchlist [{A}],
    threshold 40,000,000 base units, and the constants of [config.ts]. *)
Definition scenarioConfig : AppConfig := {|
  lcdUrl := "https://public-zigchain-lcd.numia.xyz";
  monitoredWallets := {[ "A" ]};
  minAmountUzig := 40000000;
  zigDecimals := 1000000;
  maxSeenTxHashes := 10000
|}.

(** The transfer of the scenario frame, normalized. *)
Definition scenarioTransfer : NormalizedTransfer := {|
  nt_sender := "A"; nt_recipient := "B"; nt_amountUzig := 50000000;
  nt_denom := "uzig"; nt_txhash := "H1" |}.

(** An HTTP 200 whose body holds one wasm event. *)
Definition httpWasm : nat -> string -> http_outcome :=
  fun _ _ => Response true 200
    (Some (JObj [("tx_response",
             JObj [("events", JArr [JObj [("type", JStr "wasm")]])])])).

(** The frame of the specification's scenario, as printed there. *)
Definition specFrame : string := Node.quoted
  "{'result':{'events':{'transfer.sender':['A'],'transfer.recipient':['B'],'transfer.amount':['50000000uzig']},'tx.hash':['H1']}}".

(** The same frame with [tx.hash] inside [result.events], where
    [extractFromCosmosEventStyle] reads it. *)
Definition eventsFrame : string := Node.quoted
  "{'result':{'events':{'transfer.sender':['A'],'transfer.recipient':['B'],'transfer.amount':['50000000uzig'],'tx.hash':['H1']}}}".

Definition specFrameJson : json :=
  JObj [("result",
     JObj [("events",
        JObj [("transfer.sender", JArr [JStr "A"]);
              ("transfer.recipient", JArr [JStr "B"]);
              ("transfer.amount", JArr [JStr "50000000uzig"])]);
           ("tx.hash", JArr [JStr "H1"])])].

Definition eventsFrameJson : json :=
  JObj [("result",
     JObj [("events",
        JObj [("transfer.sender", JArr [JStr "A"]);
              ("transfer.recipient", JArr [JStr "B"]);
              ("transfer.amount", JArr [JStr "50000000uzig"]);
              ("tx.hash", JArr [JStr "H1"])])])].

Definition scenarioEvent : TxSendEvent := {|
  ev_sender := "A"; ev_recipient := "B"; ev_amount := AmountString "50000000";
  ev_denom := "uzig"; ev_txhash := "H1" |}.

(** The ledger as runs that do not overlap keep it: the set mirrors the
    queue, and the queue holds distinct, non-empty hashes. *)
Definition ledgerOk (st : Monitor) : Prop :=
  seenTxHashes st = list_to_set (txOrder st)
  /\ NoDup (txOrder st)
  /\ Forall (fun h => h <> EmptyString) (txOrder st).

(** The states a monitor reaches when no run starts while another waits:
    frames are handled one after the other, each to completion, whatever the
    lookups answer.  The states of runs that overlap are those of [run]. *)
Inductive reachedInTurn (JSON_parse : string -> option json)
    (base64_utf8 : string -> string) (cfg : AppConfig) : Monitor -> Prop :=
| inTurn_new : reachedInTurn JSON_parse base64_utf8 cfg newMonitor
| inTurn_frame st http raw r st' :
    reachedInTurn JSON_parse base64_utf8 cfg st ->
    handleRawMessage JSON_parse base64_utf8 http cfg raw st = (r, st') ->
    reachedInTurn JSON_parse base64_utf8 cfg st'.

(** The scenario configuration with room for two hashes in the ledger. *)
Definition twoSlotConfig : AppConfig := {|
  lcdUrl := lcdUrl scenarioConfig;
  monitoredWallets := monitoredWallets scenarioConfig;
  minAmountUzig := minAmountUzig scenarioConfig;
  zigDecimals := zigDecimals scenarioConfig;
  maxSeenTxHashes := 2
|}.

(** The scenario frame with the hash H2. *)
Definition otherFrame : string := Node.quoted
  "{'result':{'events':{'transfer.sender':['A'],'transfer.recipient':['B'],'transfer.amount':['50000000uzig'],'tx.hash':['H2']}}}".

(** The scenario frame arrives twice before the request of the first run
    is answered.  Then the first run goes on to its end, through the answer
    of the request, the promise of the lookup and the notifier; then the
    second run does.  Then the frame with H2 arrives and its run goes on to
    its end. *)
Definition overlappedDeliveries : list Happening :=
  [Delivered eventsFrame; Delivered eventsFrame;
   Resumed 0; Resumed 1; Resumed 1;
   Resumed 0; Resumed 0; Resumed 0;
   Delivered otherFrame; Resumed 0; Resumed 0; Resumed 0].

(** A frame arrives and its run, the only one, goes on to its end: through
    the promise of a lookup that the cache answers, and the notifier. *)
Definition deliveredAlone (raw : string) : list Happening :=
  [Delivered raw; Resumed 0; Resumed 0].

(** The transfers of a frame that pass [normalizeTransfer]. *)
Definition frameTransfers (JSON_parse : string -> option json)
    (base64_utf8 : string -> string) (raw : string) : list NormalizedTransfer :=
  match JSON_parse raw with
  | None => []
  | Some parsed =>
      match extractTxSendEvents base64_utf8 parsed with
      | Ok events => omap normalizeTransfer events
      | Throw _ => []
      end
  end.

Definition bucketKeys (txBuckets : list (string * list NormalizedTransfer)) : list string :=
  fst <$> txBuckets.

(** A frame whose first event has an object with an own [toString] as its
    [type]. *)
Definition throwingFrame : string := Node.quoted
  "{'txhash':'H','result':{'events':[{'type':{'toString':1}}]}}".

Definition throwingPayload : json :=
  JObj [("txhash", JStr "H");
        ("result", JObj [("events",
           JArr [JObj [("type", JObj [("toString", JNum "1")])]])])].

(** A string without the occurrences of one character. *)
Fixpoint dropChar (x : ascii) (s : string) : string :=
  match s with
  | EmptyString => EmptyString
  | String c r => if is_char x c then dropChar x r else String c (dropChar x r)
  end.

(** A transfer from the watched wallet [A] to itself. *)
Definition selfTransfer : NormalizedTransfer := {|
  nt_sender := "A"; nt_recipient := "A"; nt_amountUzig := 50000000;
  nt_denom := "uzig"; nt_txhash := "H2" |}.

(** What every alert of the coordinator satisfies, [seen] being the ledger
    when the frame arrived: a watched wallet on the side the direction names,
    the base denomination, an amount at or above the threshold, and a hash
    that was not in the ledger. *)
Definition alertOk (cfg : AppConfig) (seen : gset string) (a : Alert) : Prop :=
  al_wallet a ∈ monitoredWallets cfg
  /\ al_denom a = "uzig"
  /\ (al_txHash a ∉ seen)
  /\ al_txHash a <> EmptyString
  /\ (al_direction a = Sent /\ al_wallet a = al_sender a
      \/ al_direction a = Received /\ al_wallet a = al_recipient a)
  /\ (exists amount,
        minAmountUzig cfg <= amount /\ 0 < amount
        /\ al_amountUzig a = BigInt_toString amount).

(** The hash a waiting run is looking up, if it waits in a lookup. *)
Definition lookupOf (at_ : Suspended) : option string :=
  match at_ with
  | AtFetch _ _ txHash _ _ => Some txHash
  | AtSleep _ txHash _ _ => Some txHash
  | AtContext _ _ _ _ => None
  | AtAlert _ _ _ _ _ _ _ => None
  end.

(** The hashes a waiting run will still mark: that of its bucket and those
    of the buckets after it. *)
Definition hashesOf (at_ : Suspended) : list string :=
  match at_ with
  | AtFetch _ _ txHash _ rest => txHash :: (fst <$> rest)
  | AtSleep _ txHash _ rest => txHash :: (fst <$> rest)
  | AtContext _ txHash _ rest => txHash :: (fst <$> rest)
  | AtAlert _ _ _ _ _ txHash rest => txHash :: (fst <$> rest)
  end.



(** What every alert of the monitor satisfies, however runs overlap: a
    watched wallet on the side the direction names, the base denomination,
    and an amount at or above the threshold. *)
Definition alertSound (cfg : AppConfig) (a : Alert) : Prop :=
  al_wallet a ∈ monitoredWallets cfg
  /\ al_denom a = "uzig"
  /\ (al_direction a = Sent /\ al_wallet a = al_sender a
      \/ al_direction a = Received /\ al_wallet a = al_recipient a)
  /\ (exists amount,
        minAmountUzig cfg <= amount /\ al_amountUzig a = BigInt_toString amount).

(** A run that waits for the notifier with the [Received] alert of the same
    transfer still to come has a transfer that passed the filters, with a
    watched recipient. *)
Definition pendingSound (cfg : AppConfig) (at_ : Suspended) : Prop :=
  match at_ with
  | AtAlert true _ _ normalized _ _ _ =>
      nt_recipient normalized ∈ monitoredWallets cfg
      /\ nt_denom normalized = "uzig"
      /\ minAmountUzig cfg <= nt_amountUzig normalized
  | _ => True
  end.

(** ** Proofs *)

#[local] Set Warnings "-clear-no-such-hyp".

(** *** The dedup ledger *)

Lemma nonEmpty_true (s : string) : nonEmpty s = true <-> s <> EmptyString.
Proof. destruct s; simpl; split; intros; congruence. Qed.

Lemma tail_drop {A} (l : list A) (n : nat) : tail (drop n l) = drop (S n) l.
Proof.
  revert n. induction l as [|x l IH]; intros [|n]; simpl; auto.
Qed.

Lemma markSeen_txOrder cfg h st :
  txOrder (markSeen cfg h st) =
    if maxSeenTxHashes cfg <? Z.of_nat (length (txOrder st ++ [h]))
    then tail (txOrder st ++ [h]) else txOrder st ++ [h].
Proof.
  unfold markSeen. destruct (_ <? _); [|reflexivity].
  destruct (txOrder st ++ [h]) eqn:E; reflexivity.
Qed.

(** One [markSeen] keeps the set equal to the queue, for a fresh non-empty
    hash. *)
Lemma markSeen_ledger cfg h st :
  seenTxHashes st = list_to_set (txOrder st) ->
  NoDup (txOrder st ++ [h]) ->
  Forall (fun x => x <> EmptyString) (txOrder st ++ [h]) ->
  seenTxHashes (markSeen cfg h st) = list_to_set (txOrder (markSeen cfg h st)).
Proof.
  intros Hs Hnd Hne. unfold markSeen.
  destruct (_ <? _).
  - destruct (txOrder st ++ [h]) as [|oldest rest] eqn:E.
    { destruct (txOrder st); discriminate. }
    simpl. apply Forall_cons in Hne as [Ho _]. apply nonEmpty_true in Ho. rewrite Ho.
    apply NoDup_cons in Hnd as [Hnotin _].
    assert (Hset : ({[h]} ∪ seenTxHashes st : gset string) = list_to_set (oldest :: rest)).
    { rewrite <- E, Hs, list_to_set_app_L. simpl. set_solver. }
    rewrite Hset. simpl.
    assert (oldest ∉ (list_to_set rest : gset string)) by (rewrite elem_of_list_to_set; exact Hnotin).
    set_solver.
  - simpl. rewrite Hs, list_to_set_app_L. simpl. set_solver.
Qed.

Lemma markAll_snoc cfg l h st : markAll cfg (l ++ [h]) st = markSeen cfg h (markAll cfg l st).
Proof. unfold markAll. rewrite foldl_app. reflexivity. Qed.

(** The ledger after a sequence of fresh, distinct, non-empty hashes: the
    queue is the last [N] of what was queued and what was marked. *)
Lemma ledger_after cfg (N : nat) (hashes : list string) (st : Monitor) :
  maxSeenTxHashes cfg = Z.of_nat N ->
  seenTxHashes st = list_to_set (txOrder st) ->
  (length (txOrder st) <= N)%nat ->
  NoDup (txOrder st ++ hashes) ->
  Forall (fun h => h <> EmptyString) (txOrder st ++ hashes) ->
  txOrder (markAll cfg hashes st)
  = drop (length (txOrder st ++ hashes) - N) (txOrder st ++ hashes)
  /\ seenTxHashes (markAll cfg hashes st)
     = list_to_set (txOrder (markAll cfg hashes st)).
Proof.
  intros HN Hs0 Hlen0. induction hashes as [|h l IH] using rev_ind; intros Hnd Hne.
  - rewrite app_nil_r. replace (length (txOrder st) - N)%nat with 0%nat by lia.
    split; [reflexivity | exact Hs0].
  - rewrite markAll_snoc. rewrite app_assoc in Hnd, Hne.
    apply NoDup_app in Hnd as Hnd'. destruct Hnd' as (Hndl & _ & _).
    apply Forall_app in Hne as Hne'. destruct Hne' as [Hnel _].
    destruct (IH Hndl Hnel) as [IHo IHs].
    set (old := txOrder st ++ l) in *.
    assert (Hsub : txOrder (markAll cfg l st) ++ [h] = drop (length old - N) (old ++ [h])).
    { rewrite IHo. rewrite drop_app_le by lia. reflexivity. }
    rewrite app_assoc. fold old.
    split.
    + rewrite markSeen_txOrder, Hsub, HN.
      rewrite length_drop, !length_app. simpl.
      destruct (Z.ltb_spec (Z.of_nat N) (Z.of_nat (length old + 1 - (length old - N)))).
      * rewrite tail_drop. f_equal. lia.
      * f_equal. lia.
    + apply markSeen_ledger; [exact IHs| |]; rewrite Hsub.
      * eapply sublist_NoDup; [exact Hnd | apply sublist_drop].
      * apply Forall_drop. exact Hne.
Qed.

(** C1.  For every capacity [N] and every sequence of [N + k] distinct
    hashes ([k >= 1]) passed to [markSeen], on a new ledger or on any ledger
    whose set mirrors its queue of at most [N] distinct hashes, none of them
    among the new ones: afterwards the queue is the [N] most recently marked
    hashes, the set holds exactly those, none of the [k] oldest is a member,
    and after every prefix of the sequence a hash is in the set iff it is in
    the queue, whose length is at most [N]: the oldest entry leaves first.
    The hashes are not empty: [markSeen] is only ever given the hash of a
    normalized transfer. *)
Theorem markSeen_fifo (cfg : AppConfig) (N k : nat) (hashes : list string)
    (st : Monitor) :
  maxSeenTxHashes cfg = Z.of_nat N ->
  (1 <= k)%nat ->
  length hashes = (N + k)%nat ->
  seenTxHashes st = list_to_set (txOrder st) ->
  (length (txOrder st) <= N)%nat ->
  NoDup (txOrder st ++ hashes) ->
  Forall (fun h => h <> EmptyString) (txOrder st ++ hashes) ->
  let final := markAll cfg hashes st in
  txOrder final = drop k hashes
  /\ length (txOrder final) = N
  /\ (forall h, h ∈ seenTxHashes final <-> h ∈ drop k hashes)
  /\ (forall h, h ∈ take k hashes -> h ∉ seenTxHashes final)
  /\ (forall h, h ∈ txOrder st -> h ∉ seenTxHashes final)
  /\ (forall i : nat,
        let at_i := markAll cfg (take i hashes) st in
        (forall h, h ∈ seenTxHashes at_i <-> h ∈ txOrder at_i)
        /\ (length (txOrder at_i) <= N)%nat
        /\ txOrder at_i
           = drop (length (txOrder st ++ take i hashes) - N) (txOrder st ++ take i hashes)).
Proof.
  intros HN Hk Hlen Hs0 Hlen0 Hnd Hne final.
  destruct (ledger_after cfg N hashes st HN Hs0 Hlen0 Hnd Hne) as [Ho Hs].
  assert (Hd : drop (length (txOrder st ++ hashes) - N) (txOrder st ++ hashes)
               = drop k hashes).
  { rewrite length_app. rewrite drop_app_ge by lia. f_equal. lia. }
  rewrite Hd in Ho. fold final in Ho, Hs.
  apply NoDup_app in Hnd as Hparts. destruct Hparts as (_ & Hfresh & Hndh).
  split; [exact Ho|]. split; [rewrite Ho, length_drop; lia|].
  split; [intros h; rewrite Hs, Ho, elem_of_list_to_set; reflexivity|].
  split; [|split].
  - intros h Hin. rewrite Hs, Ho, elem_of_list_to_set. intros Hin'.
    rewrite <- (take_drop k hashes) in Hndh.
    apply NoDup_app in Hndh as (_ & Hdisj & _). exact (Hdisj h Hin Hin').
  - intros h Hin. rewrite Hs, Ho, elem_of_list_to_set. intros Hin'.
    apply (Hfresh h Hin). eapply elem_of_sublist; [exact Hin' | apply sublist_drop].
  - intros i at_i.
    assert (Hnd' : NoDup (txOrder st ++ take i hashes)).
    { eapply sublist_NoDup; [exact Hnd|]. apply sublist_app; [reflexivity | apply sublist_take]. }
    assert (Hne' : Forall (fun h => h <> EmptyString) (txOrder st ++ take i hashes)).
    { apply Forall_app in Hne as [H1 H2]. apply Forall_app. split; [exact H1|].
      apply Forall_take. exact H2. }
    destruct (ledger_after cfg N (take i hashes) st HN Hs0 Hlen0 Hnd' Hne') as [Ho' Hs'].
    fold at_i in Ho', Hs'.
    split; [intros h; rewrite Hs', elem_of_list_to_set; reflexivity|].
    split; [rewrite Ho', length_drop, length_app; lia | exact Ho'].
Qed.

(** Capacity 2 and the hashes a, b, c on a new ledger. *)
Lemma markSeen_fifo_witness :
  let final := markAll (ledgerConfig 2) ["a"; "b"; "c"] newMonitor in
  txOrder final = ["b"; "c"] /\ ("a" ∉ seenTxHashes final).
Proof.
  assert (Hnd : NoDup (txOrder newMonitor ++ ["a"; "b"; "c"]))
    by (apply (bool_decide_unpack _); vm_compute; exact I).
  assert (Hne : Forall (fun h : string => h <> EmptyString)
                  (txOrder newMonitor ++ ["a"; "b"; "c"]))
    by (repeat constructor; discriminate).
  destruct (markSeen_fifo (ledgerConfig 2) 2 1 ["a"; "b"; "c"] newMonitor
              eq_refl (le_n 1) eq_refl eq_refl (Nat.le_0_l 2) Hnd Hne)
    as (Ho & _ & _ & Hold & _).
  split; [exact Ho|]. apply Hold. simpl. apply list_elem_of_here.
Defined.

(** *** Reconnect backoff *)


















(** A scheduled reconnect arms the timer with the delay of the current
    attempt and counts the attempt; an open socket resets the count. *)
Lemma scheduleReconnect_delay (rnd : spec_float) (c : Ws.Client) :
  Ws.effects (Ws.scheduleReconnect rnd c)
  = Ws.effects c ++ [Ws.ReconnectIn (Ws.calculateBackoffMs (Ws.reconnectAttempts c) rnd)]
  /\ Ws.reconnectAttempts (Ws.scheduleReconnect rnd c) = Ws.reconnectAttempts c + 1.
Proof. split; reflexivity. Qed.

Lemma onOpen_resets_attempts (c : Ws.Client) :
  Ws.reconnectAttempts (Ws.onOpen c) = 0.
Proof. reflexivity. Qed.




(** *** Delivery of frames to the observer *)

Section Delivery.

Variable JSON_parse : string -> option json.

Lemma delivered_emit_send payload c :
  Ws.delivered (Ws.effects (Ws.emit (Ws.Send payload) c)) = Ws.delivered (Ws.effects c).
Proof.
  unfold Ws.delivered. simpl. rewrite omap_app. simpl. apply app_nil_r.
Qed.

Lemma subscribeCurrentQuery_delivered c :
  Ws.delivered (Ws.effects (Ws.subscribeCurrentQuery c)) = Ws.delivered (Ws.effects c).
Proof.
  unfold Ws.subscribeCurrentQuery. destruct (Ws.socketOpen c); simpl; [|reflexivity].
  apply delivered_emit_send.
Qed.

(** The subscription layer hands nothing to the observer. *)
Lemma handleSubscriptionResponse_delivered raw c :
  Ws.delivered (Ws.effects (Ws.handleSubscriptionResponse JSON_parse raw c))
  = Ws.delivered (Ws.effects c).
Proof.
  unfold Ws.handleSubscriptionResponse.
  destruct (JSON_parse raw) as [parsed|]; [|reflexivity].
  destruct (asRecord (Some parsed)) as [obj|]; [|reflexivity].
  destruct (get "id" obj) as [[| | id | | |]|]; try reflexivity.
  destruct (negb _); [reflexivity|].
  destruct (_ && _); [rewrite subscribeCurrentQuery_delivered; reflexivity|].
  destruct (_ && _); reflexivity.
Qed.

Lemma onMessage_delivered raw c :
  Ws.delivered (Ws.effects (Ws.onMessage JSON_parse raw c))
  = Ws.delivered (Ws.effects c) ++ [raw].
Proof.
  unfold Ws.onMessage, Ws.delivered. simpl. rewrite omap_app. simpl.
  f_equal. apply handleSubscriptionResponse_delivered.
Qed.

(** C10.  Every raw frame the ["message"] listener receives is handed to
    the observer exactly once and unchanged, frames the subscription layer
    acts on included; over a run of frames the observer receives exactly
    those frames, in their order. *)
Theorem every_frame_reaches_the_observer (frames : list string) (c : Ws.Client) :
  (forall raw,
     Ws.delivered (Ws.effects (Ws.onMessage JSON_parse raw c))
     = Ws.delivered (Ws.effects c) ++ [raw])
  /\ Ws.delivered (Ws.effects (Ws.onMessages JSON_parse frames c))
     = Ws.delivered (Ws.effects c) ++ frames.
Proof.
  split; [intros raw; apply onMessage_delivered|].
  revert c. induction frames as [|raw frames IH]; intros c; simpl.
  - symmetry. apply app_nil_r.
  - unfold Ws.onMessages in *. simpl. rewrite IH, onMessage_delivered.
    rewrite <- app_assoc. reflexivity.
Qed.

End Delivery.

(** *** Display amounts *)

Lemma pretty_N_char_digit (x : N) : isDigit (pretty_N_char x) = true.
Proof. unfold pretty_N_char. repeat case_match; reflexivity. Qed.

Lemma pretty_N_go_digits (x : N) (s : string) :
  all_chars isDigit s = true -> all_chars isDigit (pretty_N_go x s) = true.
Proof.
  revert s. induction (N.lt_wf_0 x) as [x _ IH]; intros s Hs.
  destruct (decide (x = 0%N)) as [->|Hx]; [rewrite pretty_N_go_0; exact Hs|].
  rewrite pretty_N_go_step by lia.
  apply IH; [apply N.div_lt; lia|].
  simpl. rewrite pretty_N_char_digit. exact Hs.
Qed.

Lemma pretty_N_digits (x : N) : all_chars isDigit (pretty x) = true.
Proof.
  unfold pretty, pretty_N. case_decide; [reflexivity|].
  apply pretty_N_go_digits. reflexivity.
Qed.

Lemma all_chars_weaken (p q : ascii -> bool) (s : string) :
  (forall c, p c = true -> q c = true) ->
  all_chars p s = true -> all_chars q s = true.
Proof.
  intros Hpq. induction s as [|c s IH]; simpl; [reflexivity|].
  intros H. apply andb_prop in H as [Hc Hs]. rewrite (Hpq c Hc), (IH Hs). reflexivity.
Qed.

Lemma BigInt_toString_chars (z : Z) : all_chars isDigitOrMinus (BigInt_toString z) = true.
Proof.
  assert (Hn : forall n : N, all_chars isDigitOrMinus (pretty n) = true).
  { intros n. eapply all_chars_weaken; [|apply pretty_N_digits].
    intros c Hc. unfold isDigitOrMinus. rewrite Hc. reflexivity. }
  unfold BigInt_toString, pretty, pretty_Z. destruct z as [|p|p].
  - reflexivity.
  - apply Hn.
  - simpl. apply Hn.
Qed.

Lemma no_dot_of_digits (s : string) :
  all_chars isDigitOrMinus s = true -> any_char isDot s = false.
Proof.
  induction s as [|c s IH]; simpl; [reflexivity|].
  intros H. apply andb_prop in H as [Hc Hs]. rewrite (IH Hs), orb_false_r.
  unfold isDigitOrMinus, isDigit, isDot, is_char, in_range in *.
  destruct (code c =? code ".")%N eqn:E; [|reflexivity].
  apply N.eqb_eq in E. rewrite E in Hc. vm_compute in Hc. discriminate.
Qed.

Lemma separateFrom_no_dot (prev : option ascii) (s : string) :
  any_char isDot (separateFrom prev s) = any_char isDot s.
Proof.
  revert prev. induction s as [|c s IH]; intros prev; [reflexivity|].
  cbn [separateFrom]. destruct (separatorHere prev (String c s)); simpl; rewrite IH; reflexivity.
Qed.

Lemma stripTrailingZeros_last (s : string) :
  lastChar (stripTrailingZeros s) <> Some "0"%char.
Proof.
  unfold lastChar. induction s as [|c s IH]; simpl; [discriminate|].
  destruct (stripTrailingZeros s) as [|d t] eqn:E.
  - destruct (is_char "0" c) eqn:Ec; simpl; [discriminate|].
    intros H. injection H as ->. discriminate.
  - cbn [unsnoc] in *. destruct (unsnoc t) as [[i l]|]; simpl in *.
    + exact IH.
    + exact IH.
Qed.

Lemma formatZigAmount_multiple (cfg : AppConfig) (amountUzig : Z) :
  zigDecimals cfg <> 0 ->
  Z.rem amountUzig (zigDecimals cfg) = 0 ->
  formatZigAmount cfg amountUzig
  = Ok (addThousandsSeparators (BigInt_toString (Z.quot amountUzig (zigDecimals cfg))))
  /\ any_char isDot
       (addThousandsSeparators (BigInt_toString (Z.quot amountUzig (zigDecimals cfg)))) = false.
Proof.
  intros Hz Hr. split.
  - unfold formatZigAmount. destruct (Z.eqb_spec (zigDecimals cfg) 0); [contradiction|].
    rewrite Hr. reflexivity.
  - unfold addThousandsSeparators. rewrite separateFrom_no_dot.
    apply no_dot_of_digits, BigInt_toString_chars.
Qed.

(** C8.  With scale 1,000,000, formatting 1,234,567,890 base units gives
    the text 1,234.56789; an amount that is an exact multiple of the scale is
    formatted as its integral part with thousands separators and no dot; any
    other amount gets a fraction that does not end in 0. *)
Theorem formatZigAmount_display (cfg : AppConfig) :
  zigDecimals cfg = 1000000 ->
  formatZigAmount cfg 1234567890 = Ok "1,234.56789"
  /\ (forall amountUzig : Z,
        Z.rem amountUzig (zigDecimals cfg) = 0 ->
        exists wholeStr : string,
          formatZigAmount cfg amountUzig = Ok wholeStr
          /\ wholeStr = addThousandsSeparators
                          (BigInt_toString (Z.quot amountUzig (zigDecimals cfg)))
          /\ any_char isDot wholeStr = false)
  /\ (forall amountUzig : Z,
        Z.rem amountUzig (zigDecimals cfg) <> 0 ->
        exists fractionStr : string,
          formatZigAmount cfg amountUzig
          = Ok (addThousandsSeparators
                  (BigInt_toString (Z.quot amountUzig (zigDecimals cfg)))
                +:+ "." +:+ fractionStr)
          /\ lastChar fractionStr <> Some "0"%char).
Proof.
  intros Hscale. split; [|split].
  - unfold formatZigAmount. rewrite Hscale. vm_compute. reflexivity.
  - intros amountUzig Hr.
    destruct (formatZigAmount_multiple cfg amountUzig) as [Hf Hd]; [rewrite Hscale; lia|exact Hr|].
    eexists. split; [exact Hf|]. split; [reflexivity|exact Hd].
  - intros amountUzig Hr. unfold formatZigAmount.
    destruct (Z.eqb_spec (zigDecimals cfg) 0) as [E|_]; [rewrite Hscale in E; discriminate|].
    destruct (Z.eqb_spec (Z.rem amountUzig (zigDecimals cfg)) 0); [contradiction|].
    eexists. split; [reflexivity|]. apply stripTrailingZeros_last.
Qed.

(** The scenario configuration, whose scale is 1,000,000. *)
Lemma formatZigAmount_display_witness :
  formatZigAmount scenarioConfig 1234567890 = Ok "1,234.56789"
  /\ (exists wholeStr,
        formatZigAmount scenarioConfig 5000000 = Ok wholeStr
        /\ any_char isDot wholeStr = false).
Proof.
  destruct (formatZigAmount_display scenarioConfig eq_refl) as (Hexample & Hwhole & _).
  split; [exact Hexample|].
  destruct (Hwhole 5000000 eq_refl) as (wholeStr & Hf & _ & Hd).
  exists wholeStr. split; assumption.
Defined.

(** *** The base64 heuristic *)

Lemma ascii_cases (P : ascii -> Prop) :
  (forall b0 b1 b2 b3 b4 b5 b6 b7, P (Ascii b0 b1 b2 b3 b4 b5 b6 b7)) -> forall c, P c.
Proof. intros H [b0 b1 b2 b3 b4 b5 b6 b7]. apply H. Qed.

(** A fact about one character, settled on each of the 256. *)
Ltac by_char_cases :=
  let c := fresh "c" in
  intros c; pattern c; apply ascii_cases;
  intros [] [] [] [] [] [] [] []; vm_compute; intros; congruence.

Lemma plainToken_not_space : forall c, isPlainTokenChar c = true -> isWhiteSpace c = false.
Proof. by_char_cases. Qed.

Lemma base64Char_not_space : forall c, isBase64Char c = true -> isWhiteSpace c = false.
Proof. by_char_cases. Qed.

Lemma lowerAlnum_plainToken : forall c, isLowerAlnum c = true -> isPlainTokenChar c = true.
Proof. by_char_cases. Qed.

Lemma base64Char_plain_or_sign :
  forall c, isBase64Char c = true -> isPlainTokenChar c = negb (isPlusOrEquals c).
Proof. by_char_cases. Qed.

Lemma trimEnd_id (s : string) :
  all_chars (fun c => negb (isWhiteSpace c)) s = true -> trimEnd s = s.
Proof.
  induction s as [|c s IH]; simpl; [reflexivity|].
  intros H. apply andb_prop in H as [Hc Hs]. rewrite (IH Hs).
  apply negb_true_iff in Hc. rewrite Hc. destruct s; reflexivity.
Qed.

Lemma trim_id (s : string) :
  all_chars (fun c => negb (isWhiteSpace c)) s = true -> trim s = s.
Proof.
  intros H. unfold trim.
  assert (Hs : trimStart s = s).
  { destruct s as [|c s]; [reflexivity|]. simpl in *.
    apply andb_prop in H as [Hc _]. apply negb_true_iff in Hc. rewrite Hc. reflexivity. }
  rewrite Hs. apply trimEnd_id, H.
Qed.

Lemma trim_id_class (p : ascii -> bool) (s : string) :
  (forall c, p c = true -> isWhiteSpace c = false) ->
  all_chars p s = true -> trim s = s.
Proof.
  intros Hp H. apply trim_id. eapply all_chars_weaken; [|exact H].
  intros c Hc. rewrite (Hp c Hc). reflexivity.
Qed.

Lemma matches_plus_all (p : ascii -> bool) (s : string) :
  matches_plus p s = true -> nonEmpty s = true /\ all_chars p s = true.
Proof. unfold matches_plus. intros H. apply andb_prop in H. exact H. Qed.

Lemma base64_with_sign_not_plain (s : string) :
  all_chars isBase64Char s = true -> any_char isPlusOrEquals s = true ->
  all_chars isPlainTokenChar s = false.
Proof.
  induction s as [|c s IH]; simpl; [discriminate|].
  intros H Ha. apply andb_prop in H as [Hc Hs].
  rewrite (base64Char_plain_or_sign c Hc).
  destruct (isPlusOrEquals c); simpl; [reflexivity|].
  apply IH; assumption.
Qed.

Section Base64Heuristic.

Variable base64_utf8 : string -> string.

Lemma decodeMaybeBase64_plain (input : string) :
  matches_plus isPlainTokenChar (trim input) = true ->
  decodeMaybeBase64_run base64_utf8 input = (false, trim input).
Proof.
  intros H. unfold decodeMaybeBase64_run. cbv zeta.
  destruct (matches_plus_all _ _ H) as [Hne _]. rewrite Hne, H. reflexivity.
Qed.

Lemma decodeMaybeBase64_reached (input : string) :
  fst (decodeMaybeBase64_run base64_utf8 input) = true ->
  matches_plus isPlainTokenChar (trim input) = false
  /\ matches_plus isBase64Char (trim input) = true
  /\ (String.length (trim input) mod 4 = 0)%nat.
Proof.
  unfold decodeMaybeBase64_run. cbv zeta.
  destruct (nonEmpty (trim input)); cbn [negb orb fst]; [|discriminate].
  destruct (matches_plus isPlainTokenChar (trim input)); cbn [negb orb fst]; [discriminate|].
  destruct (matches_plus isBase64Char (trim input)); cbn [negb orb fst]; [|discriminate].
  destruct (Nat.eqb_spec (String.length (trim input) mod 4) 0) as [E|E];
    cbn [negb orb fst]; [|discriminate].
  intros _. auto.
Qed.

Lemma decodeMaybeBase64_decoding (s : string) :
  matches_plus isBase64Char s = true ->
  (String.length s mod 4 = 0)%nat ->
  any_char isPlusOrEquals s = true ->
  decodeMaybeBase64_run base64_utf8 s
  = (true, if matches_plus isPrintable (trim (base64_utf8 s))
           then trim (base64_utf8 s) else s).
Proof.
  intros Hv Hl Hs. destruct (matches_plus_all _ _ Hv) as [Hne Hall].
  assert (Ht : trim s = s) by (eapply trim_id_class; [apply base64Char_not_space | exact Hall]).
  unfold decodeMaybeBase64_run. cbv zeta. rewrite Ht, Hne, Hv, Hl. simpl.
  assert (Hp : matches_plus isPlainTokenChar s = false).
  { unfold matches_plus. rewrite Hne, (base64_with_sign_not_plain s Hall Hs). reflexivity. }
  rewrite Hp.
  destruct (trim (base64_utf8 s)) eqn:E; reflexivity.
Qed.

(** C4, amended.  A plain lowercase address (lowercase letters and digits)
    is returned unchanged and is never decoded; a string in the base64
    alphabet whose length is a multiple of 4 and that holds [+] or [=] is
    returned as its decoding trimmed of surrounding white space when that is
    non-empty printable ASCII; a string in the base64 alphabet with length a
    multiple of 4 whose trimmed decoding is empty or not printable ASCII is
    returned unchanged; decoding is attempted only on a trimmed input in the
    base64 alphabet whose length is a multiple of 4. *)
Theorem decodeMaybeBase64_heuristic (s : string) :
  (matches_plus isLowerAlnum s = true ->
     decodeMaybeBase64 base64_utf8 s = s /\ base64Attempted base64_utf8 s = false)
  /\ (matches_plus isBase64Char s = true ->
      (String.length s mod 4 = 0)%nat ->
      any_char isPlusOrEquals s = true ->
      matches_plus isPrintable (trim (base64_utf8 s)) = true ->
        decodeMaybeBase64 base64_utf8 s = trim (base64_utf8 s))
  /\ (matches_plus isBase64Char s = true ->
      (String.length s mod 4 = 0)%nat ->
      matches_plus isPrintable (trim (base64_utf8 s)) = false ->
        decodeMaybeBase64 base64_utf8 s = s)
  /\ (base64Attempted base64_utf8 s = true ->
        matches_plus isBase64Char (trim s) = true
        /\ (String.length (trim s) mod 4 = 0)%nat).
Proof.
  assert (Hplain : matches_plus isPlainTokenChar s = true ->
            decodeMaybeBase64 base64_utf8 s = s /\ base64Attempted base64_utf8 s = false).
  { intros H. destruct (matches_plus_all _ _ H) as [_ Hall].
    assert (Ht : trim s = s)
      by (eapply trim_id_class; [apply plainToken_not_space | exact Hall]).
    unfold decodeMaybeBase64, base64Attempted.
    rewrite decodeMaybeBase64_plain by (rewrite Ht; exact H).
    rewrite Ht. split; reflexivity. }
  split; [|split; [|split]].
  - intros H. apply Hplain. destruct (matches_plus_all _ _ H) as [Hne Hall].
    unfold matches_plus. rewrite Hne. simpl.
    eapply all_chars_weaken; [apply lowerAlnum_plainToken | exact Hall].
  - intros Hv Hl Hs Hp. unfold decodeMaybeBase64.
    rewrite decodeMaybeBase64_decoding by assumption. rewrite Hp. reflexivity.
  - intros Hv Hl Hp.
    destruct (matches_plus isPlainTokenChar s) eqn:Epl; [apply Hplain; reflexivity|].
    destruct (matches_plus_all _ _ Hv) as [Hne Hall].
    assert (Ht : trim s = s)
      by (eapply trim_id_class; [apply base64Char_not_space | exact Hall]).
    unfold decodeMaybeBase64, decodeMaybeBase64_run. cbv zeta.
    rewrite Ht, Hne, Epl, Hv, Hl. simpl. rewrite Hp.
    destruct (trim (base64_utf8 s)); reflexivity.
  - intros H. apply decodeMaybeBase64_reached in H. tauto.
Qed.

End Base64Heuristic.

(** An address, the base64 of uzig, and the base64 of the byte 255. *)
Lemma decodeMaybeBase64_heuristic_witness :
  decodeMaybeBase64 Node.base64_utf8 "zig1l9l6ztayaeservh407jgy5t0ek32rva5edsajn"
  = "zig1l9l6ztayaeservh407jgy5t0ek32rva5edsajn"
  /\ decodeMaybeBase64 Node.base64_utf8 "dXppZw==" = "uzig"
  /\ decodeMaybeBase64 Node.base64_utf8 "/w==" = "/w=="
  /\ matches_plus isBase64Char (trim "dXppZw==") = true.
Proof.
  split; [|split; [|split]].
  - destruct (decodeMaybeBase64_heuristic Node.base64_utf8
                "zig1l9l6ztayaeservh407jgy5t0ek32rva5edsajn") as (H & _).
    apply H. reflexivity.
  - destruct (decodeMaybeBase64_heuristic Node.base64_utf8 "dXppZw==")
      as (_ & H & _).
    rewrite H by reflexivity. reflexivity.
  - destruct (decodeMaybeBase64_heuristic Node.base64_utf8 "/w==")
      as (_ & _ & H & _).
    apply H; reflexivity.
  - destruct (decodeMaybeBase64_heuristic Node.base64_utf8 "dXppZw==")
      as (_ & _ & _ & H).
    apply H. reflexivity.
Defined.

(** The base64 of abc followed by a line feed: the string is in the base64
    alphabet, its length is 8, its decoding is not printable ASCII, and it
    is not returned unchanged: the decoding is trimmed before the printable
    test, and abc is returned. *)
Lemma decodeMaybeBase64_counterexample :
  matches_plus isBase64Char "YWJjCg==" = true
  /\ (String.length "YWJjCg==" mod 4 = 0)%nat
  /\ Node.base64_utf8 "YWJjCg==" = "abc" +:+ String "010" EmptyString
  /\ matches_plus isPrintable (Node.base64_utf8 "YWJjCg==") = false
  /\ decodeMaybeBase64 Node.base64_utf8 "YWJjCg==" = "abc"
  /\ decodeMaybeBase64 Node.base64_utf8 "YWJjCg==" <> "YWJjCg==".
Proof.
  repeat split; try reflexivity. vm_compute. discriminate.
Qed.

(** *** Context enrichment *)

Lemma fetchCount_emit (e : effect) (st : Monitor) :
  fetchCount (emit e st) = (fetchCount st + (if is_fetch e then 1 else 0))%nat.
Proof.
  unfold fetchCount, emit. simpl. rewrite filter_app, length_app.
  f_equal. destruct e; reflexivity.
Qed.

Lemma fetchCount_cacheSet txHash context st :
  fetchCount (cacheSet txHash context st) = fetchCount st.
Proof. reflexivity. Qed.

Lemma alertsOf_app (l k : list effect) : alertsOf (l ++ k) = alertsOf l ++ alertsOf k.
Proof. apply omap_app. Qed.

Lemma attemptContext_nonSuccess (o : http_outcome) :
  isNonSuccess o = true -> attemptContext o = None.
Proof. destruct o as [|[] status body]; simpl; intros; congruence. Qed.

Section Enrichment.

Variable http : nat -> string -> http_outcome.
Variable cfg : AppConfig.

(** What a lookup loop leaves behind: the ledger untouched, no alert, and a
    cache entry only for a context that was found. *)
Lemma getTxContext_from_frame attempts url txHash st r st' :
  getTxContext_from http attempts url txHash st = (r, st') ->
  seenTxHashes st' = seenTxHashes st
  /\ txOrder st' = txOrder st
  /\ nonEventMessageCount st' = nonEventMessageCount st
  /\ alertsOf (effects st') = alertsOf (effects st)
  /\ (fetchCount st + (if nonNil attempts then 1 else 0) <= fetchCount st')%nat
  /\ txContextCache st' = match r with
                          | Some context => <[txHash := Some context]> (txContextCache st)
                          | None => txContextCache st
                          end.
Proof.
  revert st. induction attempts as [|attempt later IH]; intros st; simpl.
  - intros [= <- <-]. repeat split; try reflexivity. lia.
  - destruct (attemptContext _) as [context|].
    + intros [= <- <-]. rewrite fetchCount_cacheSet, fetchCount_emit.
      cbn [cacheSet emit seenTxHashes txOrder nonEventMessageCount effects
           txContextCache is_fetch nonNil].
      rewrite alertsOf_app. simpl. rewrite app_nil_r. repeat split; try reflexivity.
    + intros H. apply IH in H as (Hs & Ho & Hc & Ha & Hf & Hm).
      destruct (attempt <? 3); simpl in *;
        rewrite ?alertsOf_app, ?fetchCount_emit in *; simpl in *;
        rewrite ?app_nil_r in *; repeat split; try assumption;
        rewrite ?fetchCount_emit in Hf; simpl in Hf; lia.
Qed.

Lemma getTxContext_frame txHash st r st' :
  getTxContext http cfg txHash st = (r, st') ->
  seenTxHashes st' = seenTxHashes st
  /\ txOrder st' = txOrder st
  /\ nonEventMessageCount st' = nonEventMessageCount st
  /\ alertsOf (effects st') = alertsOf (effects st).
Proof.
  unfold getTxContext. destruct (txContextCache st !! txHash).
  - intros [= <- <-]. repeat split.
  - intros H. apply getTxContext_from_frame in H. tauto.
Qed.

(** Three non-success answers: three requests, two pauses, [null], and no
    cache entry. *)
Lemma getTxContext_all_fail txHash st :
  txContextCache st !! txHash = None ->
  (forall i : nat, (i < 3)%nat ->
     isNonSuccess (http (fetchCount st + i)%nat (txUrl cfg txHash)) = true) ->
  exists st1,
    getTxContext http cfg txHash st = (None, st1)
    /\ effects st1 = effects st ++ failedLookupEffects (txUrl cfg txHash)
    /\ txContextCache st1 = txContextCache st
    /\ seenTxHashes st1 = seenTxHashes st
    /\ txOrder st1 = txOrder st.
Proof.
  intros Hmiss Hfail. unfold getTxContext. rewrite Hmiss.
  pose proof (Hfail 0%nat ltac:(lia)) as H0.
  pose proof (Hfail 1%nat ltac:(lia)) as H1.
  pose proof (Hfail 2%nat ltac:(lia)) as H2.
  rewrite Nat.add_0_r in H0.
  cbn [getTxContext_from].
  rewrite (attemptContext_nonSuccess _ H0).
  change (1 <? 3) with true. cbv iota.
  rewrite !fetchCount_emit. cbn [is_fetch]. rewrite Nat.add_0_r.
  rewrite (attemptContext_nonSuccess _ H1).
  change (2 <? 3) with true. cbv iota.
  rewrite !fetchCount_emit. cbn [is_fetch]. rewrite !Nat.add_0_r.
  replace (fetchCount st + 1 + 1)%nat with (fetchCount st + 2)%nat by lia.
  rewrite (attemptContext_nonSuccess _ H2).
  change (3 <? 3) with false. cbv iota.
  eexists. split; [reflexivity|]. simpl.
  rewrite <- !app_assoc. repeat split.
Qed.

End Enrichment.

Lemma effects_markSeen cfg txHash st : effects (markSeen cfg txHash st) = effects st.
Proof. unfold markSeen. destruct (if _ <? _ then _ else _). reflexivity. Qed.

Lemma txContextCache_markSeen cfg txHash st :
  txContextCache (markSeen cfg txHash st) = txContextCache st.
Proof. unfold markSeen. destruct (if _ <? _ then _ else _). reflexivity. Qed.

(** A transfer that passes the three filters is alerted once per matching
    side, whatever the lookup gave. *)
Lemma processTransfer_qualifying cfg txContext normalized st :
  zigDecimals cfg <> 0 ->
  nt_sender normalized ∈ monitoredWallets cfg
  \/ nt_recipient normalized ∈ monitoredWallets cfg ->
  nt_denom normalized = "uzig" ->
  minAmountUzig cfg <= nt_amountUzig normalized ->
  exists st' new amountZig,
    processTransfer cfg txContext normalized st = (Ok tt, st')
    /\ effects st' = effects st ++ (Notify <$> new)
    /\ new <> []
    /\ seenTxHashes st' = seenTxHashes st
    /\ txOrder st' = txOrder st
    /\ txContextCache st' = txContextCache st
    /\ Forall (fun a =>
         al_eventType a = or_default (ctxField txContext eventType) "wasm"
         /\ al_txHash a = nt_txhash normalized
         /\ al_amountZig a = amountZig
         /\ (al_direction a = Sent /\ al_wallet a = nt_sender normalized
             \/ al_direction a = Received /\ al_wallet a = nt_recipient normalized)) new.
Proof.
  intros Hz Hmatch Hdenom Hmin. unfold processTransfer. cbv zeta.
  assert (Hm : negb (bool_decide (nt_sender normalized ∈ monitoredWallets cfg))
               && negb (bool_decide (nt_recipient normalized ∈ monitoredWallets cfg))
               = false).
  { destruct Hmatch as [H|H]; rewrite (bool_decide_eq_true_2 _ H); simpl;
      [reflexivity | apply andb_false_r]. }
  rewrite Hm, Hdenom. cbn [String.eqb Ascii.eqb Bool.eqb negb].
  destruct (Z.ltb_spec (nt_amountUzig normalized) (minAmountUzig cfg)); [lia|].
  unfold formatZigAmount. destruct (Z.eqb_spec (zigDecimals cfg) 0); [contradiction|].
  match goal with
  | |- context [match (if ?c then Ok ?a else Ok ?b) with _ => _ end] =>
      replace (if c then Ok a else Ok b) with (Ok (if c then a else b))
        by (destruct c; reflexivity);
      set (amountZig := if c then a else b)
  end.
  cbv iota beta.
  destruct (bool_decide (nt_sender normalized ∈ monitoredWallets cfg)) eqn:Es;
  destruct (bool_decide (nt_recipient normalized ∈ monitoredWallets cfg)) eqn:Er;
    try discriminate Hm.
  - eexists _, [_; _], amountZig. split; [reflexivity|].
    unfold sendAlert. simpl. rewrite <- app_assoc.
    repeat split; try reflexivity; [discriminate|].
    repeat (constructor; [simpl; repeat split; auto|]); constructor.
  - eexists _, [_], amountZig. split; [reflexivity|].
    unfold sendAlert. simpl.
    repeat split; try reflexivity; [discriminate|].
    repeat (constructor; [simpl; repeat split; auto|]); constructor.
  - eexists _, [_], amountZig. split; [reflexivity|].
    unfold sendAlert. simpl.
    repeat split; try reflexivity; [discriminate|].
    repeat (constructor; [simpl; repeat split; auto|]); constructor.
Qed.

(** C9.  When the three requests of a lookup all get a non-success HTTP
    status, the lookup resolves to [null] after exactly three requests with a
    1200 ms pause between them, and a transfer that passes the filters is
    still alerted, with [eventType] set to the default, the text wasm. *)
Theorem enrichment_failure_still_alerts
    (http : nat -> string -> http_outcome) (cfg : AppConfig)
    (txHash : string) (normalized : NormalizedTransfer) (st : Monitor) :
  txContextCache st !! txHash = None ->
  (forall i : nat, (i < 3)%nat ->
     isNonSuccess (http (fetchCount st + i)%nat (txUrl cfg txHash)) = true) ->
  zigDecimals cfg <> 0 ->
  nt_sender normalized ∈ monitoredWallets cfg
  \/ nt_recipient normalized ∈ monitoredWallets cfg ->
  nt_denom normalized = "uzig" ->
  minAmountUzig cfg <= nt_amountUzig normalized ->
  (exists st1,
     getTxContext http cfg txHash st = (None, st1)
     /\ effects st1 = effects st ++ failedLookupEffects (txUrl cfg txHash)
     /\ fetchCount st1 = (fetchCount st + 3)%nat)
  /\ (exists st2 new,
        processBucket http cfg (txHash, [normalized]) st = (Ok tt, st2)
        /\ effects st2
           = effects st ++ failedLookupEffects (txUrl cfg txHash) ++ (Notify <$> new)
        /\ new <> []
        /\ Forall (fun a => al_eventType a = "wasm"
                            /\ al_txHash a = nt_txhash normalized) new).
Proof.
  intros Hmiss Hfail Hz Hmatch Hdenom Hmin.
  destruct (getTxContext_all_fail http cfg txHash st Hmiss Hfail)
    as (st1 & Hget & Heff & _).
  split.
  - exists st1. split; [exact Hget|]. split; [exact Heff|].
    unfold fetchCount. rewrite Heff, filter_app, length_app. reflexivity.
  - destruct (processTransfer_qualifying cfg None normalized st1 Hz Hmatch Hdenom Hmin)
      as (st' & new & amountZig & Hp & Heff' & Hne & _ & _ & _ & Hall).
    exists (markSeen cfg txHash st'), new.
    unfold processBucket. rewrite Hget. cbn [processTransfers]. rewrite Hp.
    split; [reflexivity|].
    rewrite effects_markSeen, Heff', Heff, <- app_assoc.
    split; [reflexivity|]. split; [exact Hne|].
    eapply Forall_impl; [exact Hall|]. simpl. intros a (He & Hh & _). auto.
Qed.

(** The scenario transfer with an HTTP 500 on every request. *)
Lemma enrichment_failure_still_alerts_witness :
  exists st2 new,
    processBucket http500 scenarioConfig ("H1", [scenarioTransfer]) newMonitor = (Ok tt, st2)
    /\ effects st2
       = effects newMonitor ++ failedLookupEffects (txUrl scenarioConfig "H1")
         ++ (Notify <$> new)
    /\ new <> []
    /\ Forall (fun a => al_eventType a = "wasm"
                        /\ al_txHash a = nt_txhash scenarioTransfer) new.
Proof.
  apply (enrichment_failure_still_alerts http500 scenarioConfig "H1" scenarioTransfer
           newMonitor).
  - reflexivity.
  - intros i _. reflexivity.
  - discriminate.
  - left. apply (bool_decide_unpack _). vm_compute. exact I.
  - reflexivity.
  - vm_compute. discriminate.
Defined.

(** A lookup that ends in [null] has sent its three requests. *)
Lemma getTxContext_null_requests http cfg txHash st st1 :
  txContextCache st !! txHash = None ->
  getTxContext http cfg txHash st = (None, st1) ->
  fetchCount st1 = (fetchCount st + 3)%nat /\ txContextCache st1 = txContextCache st.
Proof.
  intros Hmiss. unfold getTxContext. rewrite Hmiss. cbn [getTxContext_from].
  repeat (match goal with
          | |- context [match attemptContext ?o with _ => _ end] =>
              destruct (attemptContext o); [discriminate|]
          end).
  change (1 <? 3) with true. change (2 <? 3) with true. change (3 <? 3) with false.
  cbv iota. intros [= <-].
  rewrite !fetchCount_emit. cbn [is_fetch]. split; [lia | reflexivity].
Qed.

(** C2.  The code does not memoize a negative result.  A lookup that starts
    from a cache miss and resolves to [null] has sent three requests and
    leaves the cache without an entry for the hash, so the next lookup of the
    same hash sends requests again, whatever the endpoint answers then. *)
Theorem lookup_null_is_not_cached
    (http http' : nat -> string -> http_outcome) (cfg : AppConfig)
    (txHash : string) (st st1 : Monitor) :
  txContextCache st !! txHash = None ->
  getTxContext http cfg txHash st = (None, st1) ->
  fetchCount st1 = (fetchCount st + 3)%nat
  /\ txContextCache st1 !! txHash = None
  /\ (fetchCount st1 < fetchCount (snd (getTxContext http' cfg txHash st1)))%nat.
Proof.
  intros Hmiss Hget.
  destruct (getTxContext_null_requests http cfg txHash st st1 Hmiss Hget) as [Hf Hc].
  split; [exact Hf|]. split; [rewrite Hc; exact Hmiss|].
  unfold getTxContext. rewrite Hc, Hmiss.
  destruct (getTxContext_from http' [1; 2; 3] (txUrl cfg txHash) txHash st1)
    as [r st2] eqn:E.
  apply getTxContext_from_frame in E as (_ & _ & _ & _ & Hle & _).
  simpl in *. lia.
Qed.

(** An HTTP 200 without wasm event: the first lookup of H1 makes three
    requests and caches nothing, the second makes three more. *)
Lemma lookup_null_is_not_cached_witness :
  let first := getTxContext httpNoWasm scenarioConfig "H1" newMonitor in
  let second := getTxContext httpNoWasm scenarioConfig "H1" (snd first) in
  fst first = None
  /\ fetchCount (snd first) = 3%nat
  /\ txContextCache (snd first) !! "H1" = None
  /\ fst second = None
  /\ fetchCount (snd second) = 6%nat.
Proof.
  cbv zeta.
  destruct (getTxContext httpNoWasm scenarioConfig "H1" newMonitor) as [outcome st1] eqn:E.
  assert (Ho : outcome = None) by (vm_compute in E; congruence).
  subst outcome.
  destruct (lookup_null_is_not_cached httpNoWasm httpNoWasm scenarioConfig "H1"
              newMonitor st1 eq_refl E) as (Hf & Hc & _).
  cbn [fst snd]. split; [reflexivity|]. split; [exact Hf|]. split; [exact Hc|].
  vm_compute in E. injection E as <-. vm_compute. split; reflexivity.
Defined.

(** *** The scenario frame *)

Lemma specFrame_parses : Node.JSON_parse specFrame = Some specFrameJson.
Proof. vm_compute. reflexivity. Qed.

Lemma eventsFrame_parses : Node.JSON_parse eventsFrame = Some eventsFrameJson.
Proof. vm_compute. reflexivity. Qed.

Lemma specFrame_extracts_nothing base64_utf8 :
  extractTxSendEvents base64_utf8 specFrameJson = Ok [].
Proof. vm_compute. reflexivity. Qed.

Lemma eventsFrame_extracts base64_utf8 :
  extractTxSendEvents base64_utf8 eventsFrameJson = Ok [scenarioEvent].
Proof. vm_compute. reflexivity. Qed.

Lemma scenarioEvent_normalizes : normalizeTransfer scenarioEvent = Some scenarioTransfer.
Proof. vm_compute. reflexivity. Qed.

(** The frame as the specification prints it carries no transaction hash
    where the extraction looks for one: nothing is alerted. *)
Lemma specFrame_no_alert base64_utf8 http st :
  exists st',
    handleRawMessage Node.JSON_parse base64_utf8 http scenarioConfig specFrame st
    = (Ok tt, st')
    /\ effects st' = effects st.
Proof.
  unfold handleRawMessage. rewrite specFrame_parses, specFrame_extracts_nothing.
  simpl. eexists. split; reflexivity.
Qed.

(** C3, amended.  The scenario frame with [tx.hash] inside [result.events],
    a watchlist of [A] alone and a threshold of 40,000,000 base units: when
    [H1] has not been seen, handling the frame sends exactly one alert, with
    direction [Sent], wallet [A] and display amount 50. *)
Theorem scenario_one_sent_alert
    (base64_utf8 : string -> string) (http : nat -> string -> http_outcome)
    (st : Monitor) :
  "H1" ∉ seenTxHashes st ->
  exists st' a,
    handleRawMessage Node.JSON_parse base64_utf8 http scenarioConfig eventsFrame st
    = (Ok tt, st')
    /\ alertsOf (effects st') = alertsOf (effects st) ++ [a]
    /\ al_direction a = Sent
    /\ al_wallet a = "A"
    /\ al_amountZig a = "50"
    /\ al_txHash a = "H1".
Proof.
  intros Hnew. unfold handleRawMessage.
  rewrite eventsFrame_parses, eventsFrame_extracts.
  cbn [nonNil negb fillBuckets]. rewrite scenarioEvent_normalizes.
  change (nt_txhash scenarioTransfer) with "H1".
  rewrite (bool_decide_eq_false_2 _ Hnew).
  cbn [bucketPush processBuckets processBucket nt_txhash scenarioTransfer].
  destruct (getTxContext http scenarioConfig "H1" st) as [txContext st1] eqn:Eget.
  apply getTxContext_frame in Eget as (_ & _ & _ & Halerts).
  cbn [processTransfers]. unfold processTransfer. cbv zeta.
  assert (HA : "A" ∈ monitoredWallets scenarioConfig)
    by (apply (bool_decide_unpack _); vm_compute; exact I).
  assert (HB : "B" ∉ monitoredWallets scenarioConfig)
    by (apply (bool_decide_unpack _); vm_compute; exact I).
  cbn [nt_sender nt_recipient nt_denom nt_amountUzig scenarioTransfer].
  rewrite (bool_decide_eq_true_2 _ HA), (bool_decide_eq_false_2 _ HB).
  change (formatZigAmount scenarioConfig 50000000) with (@Ok string "50").
  cbn.
  eexists _, _. split; [reflexivity|].
  rewrite effects_markSeen. unfold sendAlert. cbn [effects emit].
  rewrite alertsOf_app, Halerts. cbn.
  repeat split.
Qed.

(** The frame on a new monitor. *)
Lemma scenario_one_sent_alert_witness :
  exists st' a,
    handleRawMessage Node.JSON_parse Node.base64_utf8 http500 scenarioConfig eventsFrame
      newMonitor = (Ok tt, st')
    /\ alertsOf (effects st') = alertsOf (effects newMonitor) ++ [a]
    /\ al_direction a = Sent
    /\ al_wallet a = "A"
    /\ al_amountZig a = "50"
    /\ al_txHash a = "H1".
Proof.
  apply (scenario_one_sent_alert Node.base64_utf8 http500 newMonitor).
  apply (bool_decide_unpack _). vm_compute. exact I.
Defined.

(** The frame as printed, on a new monitor: handled without error, and no
    alert. *)
Lemma scenario_frame_counterexample :
  Node.JSON_parse specFrame = Some specFrameJson
  /\ ("H1" ∉ seenTxHashes newMonitor)
  /\ (exists st',
        handleRawMessage Node.JSON_parse Node.base64_utf8 http500 scenarioConfig specFrame
          newMonitor = (Ok tt, st')
        /\ alertsOf (effects st') = []).
Proof.
  split; [apply specFrame_parses|].
  split; [apply (bool_decide_unpack _); vm_compute; exact I|].
  destruct (specFrame_no_alert Node.base64_utf8 http500 newMonitor) as (st' & H & He).
  exists st'. split; [exact H|]. rewrite He. reflexivity.
Qed.

(** *** Redelivery *)

Lemma markSeen_keeps_new cfg h st :
  1 <= maxSeenTxHashes cfg -> h ∉ txOrder st -> h ∈ seenTxHashes (markSeen cfg h st).
Proof.
  intros Hcap Hnew. unfold markSeen.
  destruct (Z.ltb_spec (maxSeenTxHashes cfg) (Z.of_nat (length (txOrder st ++ [h]))));
    [|simpl; set_solver].
  destruct (txOrder st) as [|oldest rest] eqn:E.
  - simpl in *. lia.
  - simpl. assert (oldest <> h) by (intros ->; apply Hnew; apply list_elem_of_here).
    destruct (nonEmpty oldest); set_solver.
Qed.

Lemma markSeen_seen_subset cfg h st x :
  x ∈ seenTxHashes (markSeen cfg h st) -> x = h \/ x ∈ seenTxHashes st.
Proof.
  unfold markSeen. destruct (_ <? _); [|simpl; set_solver].
  destruct (txOrder st ++ [h]) as [|oldest rest]; [simpl; set_solver|].
  simpl. destruct (nonEmpty oldest); set_solver.
Qed.

Lemma markSeen_ledgerOk cfg h st :
  ledgerOk st -> h ∉ seenTxHashes st -> h <> EmptyString -> ledgerOk (markSeen cfg h st).
Proof.
  intros (Hs & Hnd & Hne) Hnew Hh.
  assert (Hnd' : NoDup (txOrder st ++ [h])).
  { apply NoDup_app. split; [exact Hnd|]. split; [|apply NoDup_singleton].
    intros x Hx Hx'. apply list_elem_of_singleton in Hx'. subst x.
    apply Hnew. rewrite Hs, elem_of_list_to_set. exact Hx. }
  assert (Hne' : Forall (fun x => x <> EmptyString) (txOrder st ++ [h])).
  { apply Forall_app. split; [exact Hne|]. repeat constructor. exact Hh. }
  split; [apply markSeen_ledger; assumption|].
  rewrite markSeen_txOrder. destruct (_ <? _).
  - destruct (txOrder st ++ [h]) as [|o r]; simpl; [split; constructor|].
    apply NoDup_cons in Hnd' as [_ Hnd']. apply Forall_cons in Hne' as [_ Hne'].
    split; assumption.
  - split; assumption.
Qed.

Lemma normalizeTransfer_txhash event normalized :
  normalizeTransfer event = Some normalized -> nt_txhash normalized <> EmptyString.
Proof.
  unfold normalizeTransfer. cbv zeta.
  destruct (nonEmpty (trim (ev_txhash event))) eqn:E.
  - destruct (_ || _); [discriminate|].
    destruct (parseAmountToUzig _ _); [|discriminate].
    destruct (_ <=? _); [discriminate|].
    intros [= <-]. simpl. apply nonEmpty_true. exact E.
  - rewrite !orb_true_r. discriminate.
Qed.

Section Redelivery.

Variable JSON_parse : string -> option json.
Variable base64_utf8 : string -> string.
Variable cfg : AppConfig.

Lemma processTransfer_frame txContext normalized st r st' :
  processTransfer cfg txContext normalized st = (r, st') ->
  seenTxHashes st' = seenTxHashes st /\ txOrder st' = txOrder st.
Proof.
  unfold processTransfer. cbv zeta.
  repeat (match goal with
          | |- context [if ?c then _ else _] => destruct c
          | |- context [match ?c with Ok _ => _ | Throw _ => _ end] => destruct c
          end; try (intros [= <- <-]; split; reflexivity)).
Qed.

Lemma processTransfers_frame txContext transfers st r st' :
  processTransfers cfg txContext transfers st = (r, st') ->
  seenTxHashes st' = seenTxHashes st /\ txOrder st' = txOrder st.
Proof.
  revert st. induction transfers as [|n ts IH]; intros st; simpl.
  - intros [= <- <-]. split; reflexivity.
  - destruct (processTransfer cfg txContext n st) as [[[]|e] st0] eqn:E;
      apply processTransfer_frame in E as [Hs Ho].
    + intros H. apply IH in H as [Hs' Ho']. split; congruence.
    + intros [= <- <-]. split; assumption.
Qed.

Lemma processBucket_ledger http h transfers st r st' :
  ledgerOk st -> h ∉ seenTxHashes st -> h <> EmptyString ->
  processBucket http cfg (h, transfers) st = (r, st') ->
  ledgerOk st'
  /\ (forall x, x ∈ seenTxHashes st' -> x = h \/ x ∈ seenTxHashes st)
  /\ (r = Ok tt -> 1 <= maxSeenTxHashes cfg -> h ∈ seenTxHashes st').
Proof.
  intros Hok Hnew Hh. unfold processBucket.
  destruct (getTxContext http cfg h st) as [txContext st1] eqn:Eget.
  apply getTxContext_frame in Eget as (Hs1 & Ho1 & _).
  destruct (processTransfers cfg txContext transfers st1) as [[[]|e] st2] eqn:Ep;
    apply processTransfers_frame in Ep as [Hs2 Ho2]; intros [= <- <-].
  - assert (Hok2 : ledgerOk st2) by (unfold ledgerOk in *; rewrite Hs2, Ho2, Hs1, Ho1; exact Hok).
    assert (Hnew2 : h ∉ seenTxHashes st2) by (rewrite Hs2, Hs1; exact Hnew).
    split; [apply markSeen_ledgerOk; assumption|]. split.
    + intros x Hx. apply markSeen_seen_subset in Hx. rewrite Hs2, Hs1 in Hx. exact Hx.
    + intros _ Hcap. apply markSeen_keeps_new; [exact Hcap|].
      destruct Hok2 as (Hm & _). rewrite Hm, elem_of_list_to_set in Hnew2. exact Hnew2.
  - split; [unfold ledgerOk in *; rewrite Hs2, Ho2, Hs1, Ho1; exact Hok|].
    split; [intros x Hx; right; rewrite Hs2, Hs1 in Hx; exact Hx | discriminate].
Qed.

Lemma processBuckets_ledger http txBuckets st r st' :
  ledgerOk st ->
  NoDup (bucketKeys txBuckets) ->
  (forall k, k ∈ bucketKeys txBuckets -> (k ∉ seenTxHashes st) /\ k <> EmptyString) ->
  processBuckets http cfg txBuckets st = (r, st') ->
  ledgerOk st'.
Proof.
  revert st. induction txBuckets as [|[h ts] rest IH]; intros st Hok Hnd Hkeys;
    cbn [processBuckets].
  - intros [= <- <-]. exact Hok.
  - simpl in Hnd. apply NoDup_cons in Hnd as [Hh Hnd].
    destruct (Hkeys h) as [Hnew Hne]; [apply list_elem_of_here|].
    destruct (processBucket http cfg (h, ts) st) as [[[]|e] st0] eqn:E;
      apply processBucket_ledger in E as (Hok0 & Hsub & _); try assumption.
    + apply IH; [exact Hok0|exact Hnd|].
      intros k Hk. destruct (Hkeys k) as [Hk1 Hk2]; [apply list_elem_of_further, Hk|].
      split; [|exact Hk2]. intros Hin. apply Hsub in Hin as [->|Hin]; contradiction.
    + intros [= <- <-]. exact Hok0.
Qed.

Lemma bucketPush_keys normalized txBuckets :
  bucketKeys (bucketPush normalized txBuckets)
  = if bool_decide (nt_txhash normalized ∈ bucketKeys txBuckets)
    then bucketKeys txBuckets
    else bucketKeys txBuckets ++ [nt_txhash normalized].
Proof.
  induction txBuckets as [|[h ts] rest IH]; simpl; [reflexivity|].
  destruct (String.eqb_spec (nt_txhash normalized) h) as [->|Hne]; simpl.
  - rewrite bool_decide_eq_true_2 by apply list_elem_of_here. reflexivity.
  - rewrite IH. unfold bucketKeys. simpl.
    destruct (bool_decide (nt_txhash normalized ∈ fst <$> rest)) eqn:E.
    + apply bool_decide_eq_true_1 in E.
      rewrite bool_decide_eq_true_2 by (apply list_elem_of_further, E). reflexivity.
    + apply bool_decide_eq_false_1 in E.
      rewrite bool_decide_eq_false_2; [reflexivity|].
      intros Hin. apply elem_of_cons in Hin as [?|?]; contradiction.
Qed.

Lemma fillBuckets_keys seen events txBuckets :
  NoDup (bucketKeys txBuckets) ->
  (forall k, k ∈ bucketKeys txBuckets -> (k ∉ seen) /\ k <> EmptyString) ->
  NoDup (bucketKeys (fillBuckets seen events txBuckets))
  /\ (forall k, k ∈ bucketKeys (fillBuckets seen events txBuckets) ->
        (k ∉ seen) /\ k <> EmptyString).
Proof.
  revert txBuckets. induction events as [|event r IH]; intros txBuckets Hnd Hkeys; simpl.
  - split; assumption.
  - destruct (normalizeTransfer event) as [normalized|] eqn:En; [|apply IH; assumption].
    destruct (bool_decide (nt_txhash normalized ∈ seen)) eqn:Es; [apply IH; assumption|].
    apply bool_decide_eq_false_1 in Es.
    apply IH; rewrite bucketPush_keys;
      destruct (bool_decide (nt_txhash normalized ∈ bucketKeys txBuckets)) eqn:Ek;
      try assumption.
    + apply bool_decide_eq_false_1 in Ek.
      apply NoDup_app. split; [exact Hnd|]. split; [|apply NoDup_singleton].
      intros x Hx Hx'. apply list_elem_of_singleton in Hx'. subst x. contradiction.
    + intros k Hk. apply elem_of_app in Hk as [Hk|Hk]; [apply Hkeys, Hk|].
      apply list_elem_of_singleton in Hk. subst k.
      split; [exact Es | eapply normalizeTransfer_txhash, En].
Qed.

Lemma logNonEventMessage_frame payload st :
  seenTxHashes (logNonEventMessage payload st) = seenTxHashes st
  /\ txOrder (logNonEventMessage payload st) = txOrder st
  /\ effects (logNonEventMessage payload st) = effects st.
Proof.
  unfold logNonEventMessage.
  repeat (match goal with
          | |- context [match ?c with _ => _ end] => destruct c
          end; try (repeat split; reflexivity)).
Qed.

Lemma handleRawMessage_ledgerOk http raw st r st' :
  ledgerOk st ->
  handleRawMessage JSON_parse base64_utf8 http cfg raw st = (r, st') ->
  ledgerOk st'.
Proof.
  intros Hok. unfold handleRawMessage.
  destruct (JSON_parse raw) as [parsed|]; [|intros [= <- <-]; exact Hok].
  destruct (extractTxSendEvents base64_utf8 parsed) as [events|e];
    [|intros [= <- <-]; exact Hok].
  destruct (negb (nonNil events)).
  - intros [= <- <-]. destruct (logNonEventMessage_frame parsed st) as (Hs & Ho & _).
    unfold ledgerOk in *. rewrite Hs, Ho. exact Hok.
  - destruct (fillBuckets_keys (seenTxHashes st) events []) as [Hnd Hkeys].
    { constructor. }
    { intros k Hk. inversion Hk. }
    intros H. eapply processBuckets_ledger; eauto.
Qed.

(** Every state reached by runs that do not overlap has a sound ledger. *)
Lemma reachedInTurn_ledgerOk st :
  reachedInTurn JSON_parse base64_utf8 cfg st -> ledgerOk st.
Proof.
  induction 1 as [|st http raw r st' _ IH H].
  - repeat split; constructor.
  - eapply handleRawMessage_ledgerOk; eauto.
Qed.

End Redelivery.

Section RedeliveryTheorem.

Variable JSON_parse : string -> option json.
Variable base64_utf8 : string -> string.
Variable cfg : AppConfig.

Lemma processBucket_marks http h transfers st st' :
  1 <= maxSeenTxHashes cfg ->
  h ∉ txOrder st ->
  processBucket http cfg (h, transfers) st = (Ok tt, st') ->
  h ∈ seenTxHashes st'.
Proof.
  intros Hcap Hnew. unfold processBucket.
  destruct (getTxContext http cfg h st) as [txContext st1] eqn:Eget.
  apply getTxContext_frame in Eget as (_ & Ho1 & _).
  destruct (processTransfers cfg txContext transfers st1) as [[[]|e] st2] eqn:Ep;
    apply processTransfers_frame in Ep as [_ Ho2]; intros [= <-].
  apply markSeen_keeps_new; [exact Hcap|]. rewrite Ho2, Ho1. exact Hnew.
Qed.

Lemma fillBuckets_all_seen (seen : gset string) events txBuckets :
  (forall n, n ∈ omap normalizeTransfer events -> nt_txhash n ∈ seen) ->
  fillBuckets seen events txBuckets = txBuckets.
Proof.
  induction events as [|event r IH]; intros Hall; simpl; [reflexivity|].
  simpl in Hall. destruct (normalizeTransfer event) as [n|] eqn:En.
  - rewrite bool_decide_eq_true_2 by (apply Hall, list_elem_of_here).
    apply IH. intros m Hm. apply Hall, list_elem_of_further, Hm.
  - apply IH, Hall.
Qed.

Lemma fillBuckets_single (seen : gset string) h events txBuckets :
  (forall n, n ∈ omap normalizeTransfer events -> nt_txhash n = h) ->
  txBuckets = [] \/ (exists ts, txBuckets = [(h, ts)]) ->
  fillBuckets seen events txBuckets = []
  \/ (exists ts, fillBuckets seen events txBuckets = [(h, ts)]).
Proof.
  revert txBuckets. induction events as [|event r IH]; intros txBuckets Hall Hb; simpl;
    [exact Hb|].
  simpl in Hall. destruct (normalizeTransfer event) as [n|] eqn:En; [|apply IH; assumption].
  assert (Hn : nt_txhash n = h) by (apply Hall, list_elem_of_here).
  assert (Hr : forall m, m ∈ omap normalizeTransfer r -> nt_txhash m = h)
    by (intros m Hm; apply Hall, list_elem_of_further, Hm).
  destruct (bool_decide (nt_txhash n ∈ seen)); [apply IH; assumption|].
  apply IH; [exact Hr|]. right.
  destruct Hb as [->|[ts ->]]; simpl.
  - rewrite Hn. eexists. reflexivity.
  - rewrite Hn, String.eqb_refl. eexists. reflexivity.
Qed.

Lemma bucketPush_not_nil normalized txBuckets : bucketPush normalized txBuckets <> [].
Proof.
  destruct txBuckets as [|[k ts] rest]; simpl; [discriminate|].
  destruct (_ =? _)%string; discriminate.
Qed.

Lemma fillBuckets_nil (seen : gset string) events txBuckets :
  fillBuckets seen events txBuckets = [] ->
  txBuckets = []
  /\ (forall n, n ∈ omap normalizeTransfer events -> nt_txhash n ∈ seen).
Proof.
  revert txBuckets. induction events as [|event r IH]; intros txBuckets; simpl.
  - intros ->. split; [reflexivity|]. intros n Hn. inversion Hn.
  - destruct (normalizeTransfer event) as [m|] eqn:Em; [|apply IH].
    destruct (bool_decide (nt_txhash m ∈ seen)) eqn:Es.
    + apply bool_decide_eq_true_1 in Es. intros H. apply IH in H as [-> Hall].
      split; [reflexivity|]. intros n Hn.
      apply elem_of_cons in Hn as [->|Hn]; [exact Es | apply Hall, Hn].
    + intros H. apply IH in H as [Hnil _]. destruct (bucketPush_not_nil _ _ Hnil).
Qed.

Lemma fillBuckets_first_key (seen : gset string) events h ts rest :
  fillBuckets seen events [] = (h, ts) :: rest -> (h ∉ seen) /\ h <> EmptyString.
Proof.
  intros H. destruct (fillBuckets_keys seen events []) as [_ Hkeys].
  { constructor. }
  { intros k Hk. inversion Hk. }
  apply (Hkeys h). rewrite H. apply list_elem_of_here.
Qed.

(** X7.  When no run starts while another waits and the capacity is
    at least 1: a bucket that has been processed leaves its hash in the
    ledger, whether or not an alert was sent; so when a frame whose
    transfers all carry the hash [h] has been handled to its end, every
    transfer of the frame has its hash in the ledger, and handling the same
    frame again right after has no effect: no alert and no request. *)
Theorem redelivery_in_turn_is_silent
    (http http' : nat -> string -> http_outcome) (raw h : string) (st st1 : Monitor) :
  1 <= maxSeenTxHashes cfg ->
  reachedInTurn JSON_parse base64_utf8 cfg st ->
  (forall n, n ∈ frameTransfers JSON_parse base64_utf8 raw -> nt_txhash n = h) ->
  handleRawMessage JSON_parse base64_utf8 http cfg raw st = (Ok tt, st1) ->
  (forall txHash transfers s s',
     txHash ∉ txOrder s ->
     processBucket http cfg (txHash, transfers) s = (Ok tt, s') ->
     txHash ∈ seenTxHashes s')
  /\ (forall n, n ∈ frameTransfers JSON_parse base64_utf8 raw ->
        nt_txhash n ∈ seenTxHashes st1)
  /\ (exists st2,
        handleRawMessage JSON_parse base64_utf8 http' cfg raw st1 = (Ok tt, st2)
        /\ effects st2 = effects st1
        /\ alertsOf (effects st2) = alertsOf (effects st1)).
Proof.
  intros Hcap Hreach Hsame Hfirst.
  apply reachedInTurn_ledgerOk in Hreach as Hok.
  split; [intros txHash transfers s s' Hnew Hb; eapply processBucket_marks; eauto|].
  unfold frameTransfers in *. unfold handleRawMessage in *.
  destruct (JSON_parse raw) as [parsed|].
  2:{ injection Hfirst as <-. split; [intros n Hn; inversion Hn|].
      exists st. repeat split. }
  destruct (extractTxSendEvents base64_utf8 parsed) as [events|e]; [|discriminate].
  assert (Hseen : forall n, n ∈ omap normalizeTransfer events ->
                    nt_txhash n ∈ seenTxHashes st1).
  { destruct (negb (nonNil events)) eqn:Enil.
    - destruct events; [|discriminate]. intros n Hn. inversion Hn.
    - destruct (fillBuckets_single (seenTxHashes st) h events [] Hsame (or_introl eq_refl))
        as [Hb|[ts Hb]]; rewrite Hb in Hfirst.
      + injection Hfirst as <-. apply (fillBuckets_nil _ _ _ Hb).
      + cbn [processBuckets] in Hfirst.
        destruct (fillBuckets_first_key _ _ _ _ _ Hb) as [Hnew Hne].
        destruct (processBucket http cfg (h, ts) st) as [[[]|e] st0] eqn:Eb; [|discriminate].
        injection Hfirst as <-.
        apply processBucket_ledger in Eb as (_ & _ & Hin); try assumption.
        intros n Hn. rewrite (Hsame n Hn). apply Hin; [reflexivity|exact Hcap]. }
  split; [exact Hseen|].
  destruct (negb (nonNil events)) eqn:Enil.
  - injection Hfirst as <-. eexists. split; [reflexivity|].
    destruct (logNonEventMessage_frame parsed (logNonEventMessage parsed st)) as (_ & _ & He).
    rewrite He. split; reflexivity.
  - rewrite (fillBuckets_all_seen _ _ _ Hseen). simpl.
    exists st1. repeat split.
Qed.

End RedeliveryTheorem.

Lemma eventsFrame_transfers :
  frameTransfers Node.JSON_parse Node.base64_utf8 eventsFrame = [scenarioTransfer].
Proof. vm_compute. reflexivity. Qed.

(** The scenario frame, first with failing lookups, then again. *)
Lemma redelivery_in_turn_is_silent_witness :
  exists st1 st2,
    handleRawMessage Node.JSON_parse Node.base64_utf8 http500 scenarioConfig eventsFrame
      newMonitor = (Ok tt, st1)
    /\ handleRawMessage Node.JSON_parse Node.base64_utf8 httpWasm scenarioConfig eventsFrame
         st1 = (Ok tt, st2)
    /\ alertsOf (effects st2) = alertsOf (effects st1)
    /\ "H1" ∈ seenTxHashes st1.
Proof.
  set (first := handleRawMessage Node.JSON_parse Node.base64_utf8 http500 scenarioConfig
                  eventsFrame newMonitor).
  assert (E : first = (Ok tt, snd first)) by (vm_compute; reflexivity).
  assert (Hsame : forall n,
            n ∈ frameTransfers Node.JSON_parse Node.base64_utf8 eventsFrame ->
            nt_txhash n = "H1").
  { intros n Hn. rewrite eventsFrame_transfers in Hn.
    apply list_elem_of_singleton in Hn. subst n. reflexivity. }
  assert (Hcap : 1 <= maxSeenTxHashes scenarioConfig) by (vm_compute; discriminate).
  destruct (redelivery_in_turn_is_silent Node.JSON_parse Node.base64_utf8 scenarioConfig
              http500 httpWasm eventsFrame "H1" newMonitor (snd first)
              Hcap (inTurn_new _ _ _) Hsame E) as (_ & Hseen & st2 & H2 & _ & Ha).
  exists (snd first), st2.
  split; [exact E|]. split; [exact H2|]. split; [exact Ha|].
  apply (Hseen scenarioTransfer). rewrite eventsFrame_transfers. apply list_elem_of_here.
Defined.

(** C7.  The code does not keep a hash that was delivered, processed and
    marked from alerting again.  With room for two hashes: the scenario frame
    arrives a second time while the request of the first run is in flight,
    so both runs pass the ledger test, both alert, and both mark H1, which
    is then queued twice; the frame with H2 evicts the first copy and with it
    H1's membership.  From there the scenario frame is handled alone, to its
    end: it alerts, [markSeen] adds H1 and evicts the stale copy, which takes
    H1 out of the set again.  The same frame delivered once more, after that
    run has ended, alerts again. *)
Theorem overlapping_runs_defeat_dedup :
  let go := run Node.JSON_parse Node.base64_utf8 httpWasm twoSlotConfig in
  let before := go overlappedDeliveries newSystem in
  let first := go (deliveredAlone eventsFrame) before in
  let second := go (deliveredAlone eventsFrame) first in
  (waiting before = []
   /\ txOrder (monitor before) = ["H1"; "H2"]
   /\ seenTxHashes (monitor before) = {[ "H2" ]})
  /\ (waiting first = []
      /\ txOrder (monitor first) = ["H2"; "H1"]
      /\ ("H1" ∉ seenTxHashes (monitor first))
      /\ length (alertsOf (effects (monitor first))) = 4%nat)
  /\ (waiting second = []
      /\ exists alert,
           alertsOf (effects (monitor second))
           = alertsOf (effects (monitor first)) ++ [alert]
           /\ al_txHash alert = "H1"
           /\ al_direction alert = Sent
           /\ al_wallet alert = "A"
           /\ al_amountZig alert = "50").
Proof.
  cbv zeta. split; [|split].
  - split; [vm_compute; reflexivity|]. split; [vm_compute; reflexivity|].
    apply (bool_decide_unpack _). vm_compute. exact I.
  - split; [vm_compute; reflexivity|]. split; [vm_compute; reflexivity|].
    split; [apply (bool_decide_unpack _); vm_compute; exact I | vm_compute; reflexivity].
  - split; [vm_compute; reflexivity|].
    eexists. split; [vm_compute; reflexivity|]. repeat split.
Qed.

(** *** The extraction cascade *)

Section Cascade.

Variable base64_utf8 : string -> string.


End Cascade.


(** C6.  Extraction throws on a frame the socket can deliver.  The frame
    holds one event whose [type] is an object with an own property named
    toString.  The direct scan and the cosmos-style strategy return the
    empty list on it; the tagged-event-array strategy applies [String] to
    the [type], which throws a [TypeError] that nothing catches: it leaves
    [extractTxSendEvents], and the promise of [handleRawMessage] is rejected
    with it, whatever the state, the configuration and the decoder. *)
Theorem extraction_throws_on_toString_object
    (base64_utf8 : string -> string) (http : nat -> string -> http_outcome)
    (cfg : AppConfig) (st : Monitor) :
  Node.JSON_parse throwingFrame = Some throwingPayload
  /\ omap isTxSendEvent (walk throwingPayload) = []
  /\ extractFromCosmosEventStyle throwingPayload = []
  /\ extractFromTendermintEventArray base64_utf8 throwingPayload = Throw TypeError
  /\ extractTxSendEvents base64_utf8 throwingPayload = Throw TypeError
  /\ handleRawMessage Node.JSON_parse base64_utf8 http cfg throwingFrame st
     = (Throw TypeError, st).
Proof.
  assert (Hparse : Node.JSON_parse throwingFrame = Some throwingPayload)
    by (vm_compute; reflexivity).
  assert (Hthrow : extractTxSendEvents base64_utf8 throwingPayload = Throw TypeError)
    by reflexivity.
  split; [exact Hparse|]. split; [reflexivity|]. split; [reflexivity|].
  split; [reflexivity|]. split; [exact Hthrow|].
  unfold handleRawMessage. rewrite Hparse, Hthrow. reflexivity.
Qed.

(** ** Further properties of the pipeline *)

(** *** String built-ins: fixed points *)

Lemma trimEnd_cons (c : ascii) (s : string) :
  trimEnd (String c s)
  = match trimEnd s with
    | EmptyString => if isWhiteSpace c then EmptyString else String c EmptyString
    | t => String c t
    end.
Proof. reflexivity. Qed.

Lemma trimEnd_idem (s : string) : trimEnd (trimEnd s) = trimEnd s.
Proof.
  induction s as [|c s IH]; [reflexivity|].
  rewrite trimEnd_cons. destruct (trimEnd s) as [|d t] eqn:E.
  - destruct (isWhiteSpace c) eqn:Ec; [reflexivity|].
    rewrite trimEnd_cons. simpl. rewrite Ec. reflexivity.
  - rewrite trimEnd_cons, IH. reflexivity.
Qed.

Lemma trimStart_head (s : string) :
  match trimStart s with
  | EmptyString => True
  | String c _ => isWhiteSpace c = false
  end.
Proof.
  induction s as [|c s IH]; simpl; [exact I|].
  destruct (isWhiteSpace c) eqn:E; [exact IH | exact E].
Qed.

Lemma trim_head (s : string) :
  match trim s with
  | EmptyString => True
  | String c _ => isWhiteSpace c = false
  end.
Proof.
  unfold trim. pose proof (trimStart_head s) as H.
  destruct (trimStart s) as [|c r]; [exact I|].
  rewrite trimEnd_cons. destruct (trimEnd r); [rewrite H|]; exact H.
Qed.

Lemma trim_idem (s : string) : trim (trim s) = trim s.
Proof.
  pose proof (trim_head s) as H. unfold trim at 1.
  assert (Hs : trimStart (trim s) = trim s).
  { destruct (trim s) as [|c r]; [reflexivity|]. simpl. rewrite H. reflexivity. }
  rewrite Hs. unfold trim. apply trimEnd_idem.
Qed.

Lemma toLowerChar_idem : forall c, toLowerChar (toLowerChar c) = toLowerChar c.
Proof. by_char_cases. Qed.

Lemma toLowerCase_idem (s : string) : toLowerCase (toLowerCase s) = toLowerCase s.
Proof.
  induction s as [|c s IH]; simpl; [reflexivity|].
  rewrite toLowerChar_idem, IH. reflexivity.
Qed.

Lemma nonEmpty_toLowerCase (s : string) : nonEmpty (toLowerCase s) = nonEmpty s.
Proof. destruct s; reflexivity. Qed.

(** *** Validation of a candidate *)

Lemma digitsToZ_nonneg (s : string) (acc : Z) :
  all_chars isDigit s = true -> 0 <= acc -> acc <= digitsToZ acc s.
Proof.
  revert acc. induction s as [|c s IH]; intros acc Hd Hacc; simpl; [lia|].
  simpl in Hd. apply andb_prop in Hd as [Hc Hs].
  assert (0 <= digitValue c <= 9).
  { unfold digitValue, isDigit, in_range in *.
    apply andb_prop in Hc as [H1 H2]. apply N.leb_le in H1, H2. lia. }
  specialize (IH (10 * acc + digitValue c) Hs ltac:(lia)). lia.
Qed.

Lemma parseAmountToUzig_nonneg (amountRaw denom : string) (amount : Z) :
  parseAmountToUzig amountRaw denom = Some amount -> 0 <= amount.
Proof.
  unfold parseAmountToUzig. cbv zeta.
  destruct (matches_plus isDigit amountRaw) eqn:E1.
  - intros [= <-]. apply matches_plus_all in E1 as [_ H].
    apply (digitsToZ_nonneg _ 0 H). lia.
  - destruct (nonEmpty denom && endsWith (toLowerCase amountRaw) denom); [|discriminate].
    destruct (matches_plus isDigit
                (dropEnd (String.length denom) (toLowerCase amountRaw))) eqn:E2;
      [|discriminate].
    intros [= <-]. apply matches_plus_all in E2 as [_ H].
    apply (digitsToZ_nonneg _ 0 H). lia.
Qed.

(** X1.  A transfer that [normalizeTransfer] lets through has a positive
    amount, a sender, a recipient, a denomination and a hash that are not
    empty, no white space around the three addresses, and a denomination in
    lower case. *)
Theorem normalizeTransfer_valid (event : TxSendEvent) (normalized : NormalizedTransfer) :
  normalizeTransfer event = Some normalized ->
  0 < nt_amountUzig normalized
  /\ nt_sender normalized <> EmptyString
  /\ nt_recipient normalized <> EmptyString
  /\ nt_denom normalized <> EmptyString
  /\ nt_txhash normalized <> EmptyString
  /\ trim (nt_sender normalized) = nt_sender normalized
  /\ trim (nt_recipient normalized) = nt_recipient normalized
  /\ trim (nt_txhash normalized) = nt_txhash normalized
  /\ toLowerCase (nt_denom normalized) = nt_denom normalized.
Proof.
  unfold normalizeTransfer. cbv zeta.
  destruct (nonEmpty (trim (ev_sender event))) eqn:E1; [|discriminate].
  destruct (nonEmpty (trim (ev_recipient event))) eqn:E2; [|discriminate].
  destruct (nonEmpty (toLowerCase (trim (ev_denom event)))) eqn:E3; [|discriminate].
  destruct (nonEmpty (trim (ev_txhash event))) eqn:E4; [|discriminate].
  cbn [negb orb].
  destruct (parseAmountToUzig _ _) as [amountUzig|]; [|discriminate].
  destruct (Z.leb_spec amountUzig 0); [discriminate|].
  intros [= <-]. cbn [nt_sender nt_recipient nt_amountUzig nt_denom nt_txhash].
  rewrite !trim_idem, toLowerCase_idem.
  repeat split; try (apply nonEmpty_true; assumption); lia.
Qed.

Lemma normalizeTransfer_valid_witness :
  exists normalized,
    normalizeTransfer scenarioEvent = Some normalized /\ 0 < nt_amountUzig normalized.
Proof.
  exists scenarioTransfer.
  assert (H : normalizeTransfer scenarioEvent = Some scenarioTransfer)
    by (vm_compute; reflexivity).
  split; [exact H|]. apply (normalizeTransfer_valid scenarioEvent scenarioTransfer H).
Defined.

(** *** Amount strings *)

Lemma append_cons (c : ascii) (s t : string) : String c s +:+ t = String c (s +:+ t).
Proof. reflexivity. Qed.

Lemma append_nil_r (s : string) : s +:+ EmptyString = s.
Proof.
  induction s as [|c s IH]; [reflexivity|]. rewrite append_cons, IH. reflexivity.
Qed.

Lemma append_assoc (a b c : string) : (a +:+ b) +:+ c = a +:+ (b +:+ c).
Proof.
  induction a as [|x a IH]; [reflexivity|]. rewrite !append_cons, IH. reflexivity.
Qed.

Lemma length_append (a b : string) :
  String.length (a +:+ b) = (String.length a + String.length b)%nat.
Proof.
  induction a as [|x a IH]; [reflexivity|]. rewrite append_cons. simpl.
  rewrite IH. reflexivity.
Qed.

Lemma all_chars_append (p : ascii -> bool) (a b : string) :
  all_chars p (a +:+ b) = all_chars p a && all_chars p b.
Proof.
  induction a as [|x a IH]; [reflexivity|]. rewrite append_cons. simpl.
  rewrite IH. apply andb_assoc.
Qed.

Lemma toLowerCase_append (a b : string) :
  toLowerCase (a +:+ b) = toLowerCase a +:+ toLowerCase b.
Proof.
  induction a as [|x a IH]; [reflexivity|]. rewrite append_cons. simpl.
  rewrite IH. reflexivity.
Qed.

Lemma toLowerChar_digit : forall c, isDigit c = true -> toLowerChar c = c.
Proof. by_char_cases. Qed.

Lemma toLowerCase_digits (s : string) :
  all_chars isDigit s = true -> toLowerCase s = s.
Proof.
  induction s as [|c s IH]; simpl; [reflexivity|].
  intros H. apply andb_prop in H as [Hc Hs].
  rewrite (toLowerChar_digit c Hc), (IH Hs). reflexivity.
Qed.

Lemma substring_all (s : string) : substring 0 (String.length s) s = s.
Proof. induction s as [|c s IH]; simpl; [reflexivity|]. rewrite IH. reflexivity. Qed.

Lemma substring_prefix (a b : string) : substring 0 (String.length a) (a +:+ b) = a.
Proof.
  induction a as [|c a IH]; [destruct b; reflexivity|].
  rewrite append_cons. simpl. rewrite IH. reflexivity.
Qed.

Lemma substring_suffix (a b : string) :
  substring (String.length a) (String.length b) (a +:+ b) = b.
Proof.
  induction a as [|c a IH]; [apply substring_all|]. rewrite append_cons. exact IH.
Qed.

Lemma endsWith_append (a b : string) : endsWith (a +:+ b) b = true.
Proof.
  unfold endsWith. rewrite length_append.
  replace (String.length a + String.length b - String.length b)%nat
    with (String.length a) by lia.
  rewrite substring_suffix, String.eqb_refl, andb_true_r.
  apply Nat.leb_le. lia.
Qed.

Lemma dropEnd_append (a b : string) : dropEnd (String.length b) (a +:+ b) = a.
Proof.
  unfold dropEnd. rewrite length_append.
  replace (String.length a + String.length b - String.length b)%nat
    with (String.length a) by lia.
  apply substring_prefix.
Qed.

Lemma digitsToZ_append (a b : string) (acc : Z) :
  digitsToZ acc (a +:+ b) = digitsToZ (digitsToZ acc a) b.
Proof.
  revert acc. induction a as [|c a IH]; intros acc; [reflexivity|].
  rewrite append_cons. simpl. apply IH.
Qed.

Lemma pretty_N_go_append (x : N) (s : string) :
  pretty_N_go x s = pretty_N_go x EmptyString +:+ s.
Proof.
  revert s. induction (N.lt_wf_0 x) as [x _ IH]; intros s.
  destruct (decide (x = 0%N)) as [->|Hx]; [rewrite !pretty_N_go_0; reflexivity|].
  rewrite !(pretty_N_go_step x) by lia.
  rewrite (IH (x `div` 10)%N) by (apply N.div_lt; lia).
  rewrite (IH (x `div` 10)%N ltac:(apply N.div_lt; lia) (String _ EmptyString)).
  rewrite append_assoc. reflexivity.
Qed.

Lemma digitValue_pretty_N_char (d : N) :
  (d < 10)%N -> digitValue (pretty_N_char d) = Z.of_N d.
Proof.
  intros H.
  assert (d = 0 \/ d = 1 \/ d = 2 \/ d = 3 \/ d = 4 \/ d = 5 \/ d = 6 \/ d = 7
          \/ d = 8 \/ d = 9)%N as Hd by lia.
  repeat (destruct Hd as [->|Hd]; [reflexivity|]). subst d. reflexivity.
Qed.

Lemma digitsToZ_pretty_N_go (x : N) :
  digitsToZ 0 (pretty_N_go x EmptyString) = Z.of_N x.
Proof.
  induction (N.lt_wf_0 x) as [x _ IH].
  destruct (decide (x = 0%N)) as [->|Hx]; [reflexivity|].
  rewrite pretty_N_go_step by lia. rewrite pretty_N_go_append, digitsToZ_append.
  rewrite IH by (apply N.div_lt; lia). simpl.
  rewrite digitValue_pretty_N_char by (apply N.mod_lt; lia).
  pose proof (N.div_mod x 10 ltac:(lia)). lia.
Qed.

Lemma pretty_N_go_nonEmpty (x : N) (s : string) :
  nonEmpty s = true -> nonEmpty (pretty_N_go x s) = true.
Proof.
  revert s. induction (N.lt_wf_0 x) as [x _ IH]; intros s Hs.
  destruct (decide (x = 0%N)) as [->|Hx]; [rewrite pretty_N_go_0; exact Hs|].
  rewrite pretty_N_go_step by lia. apply IH; [apply N.div_lt; lia | reflexivity].
Qed.

Lemma pretty_N_nonEmpty (x : N) : nonEmpty (pretty x) = true.
Proof.
  unfold pretty, pretty_N. case_decide; [reflexivity|].
  rewrite pretty_N_go_step by lia. apply pretty_N_go_nonEmpty. reflexivity.
Qed.

Lemma BigInt_toString_nonEmpty (z : Z) : nonEmpty (BigInt_toString z) = true.
Proof.
  unfold BigInt_toString, pretty, pretty_Z. destruct z as [|p|p]; [reflexivity| |reflexivity].
  apply (pretty_N_nonEmpty (N.pos p)).
Qed.

Lemma BigInt_toString_digits (z : Z) :
  0 <= z -> matches_plus isDigit (BigInt_toString z) = true.
Proof.
  intros Hz. unfold matches_plus. rewrite BigInt_toString_nonEmpty. simpl.
  unfold BigInt_toString, pretty, pretty_Z. destruct z as [|p|p]; [reflexivity| |lia].
  apply (pretty_N_digits (N.pos p)).
Qed.

(** [BigInt] reads back what [toString] wrote. *)
Lemma BigInt_of_toString (z : Z) : 0 <= z -> BigInt_of_digits (BigInt_toString z) = z.
Proof.
  intros Hz. unfold BigInt_of_digits, BigInt_toString, pretty, pretty_Z.
  destruct z as [|p|p]; [reflexivity| |lia].
  change (pretty p) with (pretty (N.pos p)). unfold pretty, pretty_N.
  case_decide; [discriminate|]. apply (digitsToZ_pretty_N_go (N.pos p)).
Qed.

(** X2.  [parseAmountToUzig] reads back what [BigInt.toString] writes:
    the decimal text of a non-negative amount, alone or followed by the
    denomination (when that is in lower case and not all digits), parses to
    the amount; and a parsed amount is never negative. *)
Theorem parseAmountToUzig_round_trip (amount : Z) (denom : string) :
  0 <= amount ->
  parseAmountToUzig (BigInt_toString amount) denom = Some amount
  /\ (denom <> EmptyString ->
      toLowerCase denom = denom ->
      all_chars isDigit denom = false ->
        parseAmountToUzig (BigInt_toString amount +:+ denom) denom = Some amount)
  /\ (forall amountRaw parsed,
        parseAmountToUzig amountRaw denom = Some parsed -> 0 <= parsed).
Proof.
  intros Hz. pose proof (BigInt_toString_digits amount Hz) as Hd.
  split; [|split].
  - unfold parseAmountToUzig. rewrite Hd, BigInt_of_toString by exact Hz. reflexivity.
  - intros Hne Hlow Hnd. apply nonEmpty_true in Hne.
    apply matches_plus_all in Hd as [Hne' Hall].
    unfold parseAmountToUzig. cbv zeta.
    assert (E : matches_plus isDigit (BigInt_toString amount +:+ denom) = false).
    { unfold matches_plus. rewrite all_chars_append, Hnd, andb_false_r. apply andb_false_r. }
    rewrite E, toLowerCase_append, Hlow, (toLowerCase_digits _ Hall).
    rewrite Hne, endsWith_append, dropEnd_append. simpl.
    unfold matches_plus. rewrite Hne', Hall. simpl.
    rewrite BigInt_of_toString by exact Hz. reflexivity.
  - intros amountRaw parsed. apply parseAmountToUzig_nonneg.
Qed.

Lemma parseAmountToUzig_round_trip_witness :
  parseAmountToUzig "50000000" "uzig" = Some 50000000
  /\ parseAmountToUzig "50000000uzig" "uzig" = Some 50000000.
Proof.
  destruct (parseAmountToUzig_round_trip 50000000 "uzig" ltac:(lia)) as (H1 & H2 & _).
  split; [exact H1|]. apply H2; [discriminate|reflexivity|reflexivity].
Defined.

(** *** Thousands separators *)

Lemma span_all (p : ascii -> bool) (s : string) :
  all_chars p s = true -> span p s = (s, EmptyString).
Proof.
  induction s as [|c s IH]; simpl; [reflexivity|].
  intros H. apply andb_prop in H as [Hc Hs]. rewrite Hc, (IH Hs). reflexivity.
Qed.

Lemma separateFrom_dropChar (prev : option ascii) (s : string) :
  any_char (is_char ",") s = false ->
  dropChar "," (separateFrom prev s) = s.
Proof.
  revert prev. induction s as [|c s IH]; intros prev; [reflexivity|].
  cbn [any_char separateFrom]. intros H. apply orb_false_elim in H as [Hc Hs].
  destruct (separatorHere prev (String c s)); cbn [dropChar];
    rewrite ?Hc; cbn [dropChar]; rewrite ?Hc, (IH _ Hs); reflexivity.
Qed.

Lemma third_succ (m : nat) :
  (S m / 3 = m / 3 + (if S m mod 3 =? 0 then 1 else 0))%nat.
Proof.
  destruct (Nat.eqb_spec (S m mod 3) 0) as [E|E].
  - pose proof (Nat.div_mod_eq (S m) 3). pose proof (Nat.div_mod_eq m 3).
    pose proof (Nat.mod_upper_bound m 3 ltac:(lia)). lia.
  - pose proof (Nat.div_mod_eq (S m) 3). pose proof (Nat.div_mod_eq m 3).
    pose proof (Nat.mod_upper_bound m 3 ltac:(lia)).
    pose proof (Nat.mod_upper_bound (S m) 3 ltac:(lia)). lia.
Qed.

Lemma digit_wordChar : forall c, isDigit c = true -> isWordChar c = true.
Proof. by_char_cases. Qed.

Lemma separateFrom_digits_length (p : ascii) (s : string) :
  isWordChar p = true -> all_chars isDigit s = true ->
  String.length (separateFrom (Some p) s)
  = (String.length s + String.length s / 3)%nat.
Proof.
  revert p. induction s as [|c s IH]; intros p Hp Hs; [reflexivity|].
  pose proof Hs as Hs'. simpl in Hs'. apply andb_prop in Hs' as [Hc Hr].
  cbn [separateFrom]. unfold separatorHere. rewrite (span_all _ _ Hs), Hp.
  rewrite (digit_wordChar c Hc). cbn [fst Bool.eqb andb String.length].
  rewrite third_succ.
  change (0 <? S (String.length s))%nat with true. cbn [andb].
  destruct (S (String.length s) mod 3 =? 0)%nat; cbn [String.length];
    rewrite (IH c (digit_wordChar c Hc) Hr); lia.
Qed.

(** X3.  [addThousandsSeparators] only inserts commas: removing them
    gives the input back; and on a run of digits it inserts one comma per
    complete group of three digits after the first digit. *)
Theorem addThousandsSeparators_only_inserts_commas (numStr : string) :
  (any_char (is_char ",") numStr = false ->
     dropChar "," (addThousandsSeparators numStr) = numStr)
  /\ (matches_plus isDigit numStr = true ->
        String.length (addThousandsSeparators numStr)
        = (String.length numStr + (String.length numStr - 1) / 3)%nat).
Proof.
  split; [apply separateFrom_dropChar|].
  intros H. apply matches_plus_all in H as [Hne Hs].
  destruct numStr as [|c s]; [discriminate|].
  pose proof Hs as Hs'. simpl in Hs'. apply andb_prop in Hs' as [Hc Hr].
  unfold addThousandsSeparators. cbn [separateFrom]. unfold separatorHere.
  rewrite (digit_wordChar c Hc). cbn [Bool.eqb andb String.length].
  rewrite (separateFrom_digits_length c s (digit_wordChar c Hc) Hr).
  replace (S (String.length s) - 1)%nat with (String.length s) by lia. reflexivity.
Qed.

Lemma addThousandsSeparators_only_inserts_commas_witness :
  dropChar "," (addThousandsSeparators "1234567") = "1234567"
  /\ String.length (addThousandsSeparators "1234567") = 9%nat.
Proof.
  destruct (addThousandsSeparators_only_inserts_commas "1234567") as [H1 H2].
  split; [apply H1; reflexivity|]. rewrite H2 by reflexivity. reflexivity.
Defined.

(** *** The three filters *)

(** X4.  The three filters of the inner loop: a transfer with no watched
    side, another denomination or an amount below the threshold changes
    nothing; a transfer that passes them is alerted once per watched side,
    [Sent] before [Received], each alert naming the wallet of its side. *)
Theorem processTransfer_filters (cfg : AppConfig) (txContext : option TxContext)
    (normalized : NormalizedTransfer) (st : Monitor) :
  (((nt_sender normalized ∉ monitoredWallets cfg)
    /\ (nt_recipient normalized ∉ monitoredWallets cfg))
   \/ nt_denom normalized <> "uzig"
   \/ nt_amountUzig normalized < minAmountUzig cfg ->
     processTransfer cfg txContext normalized st = (Ok tt, st))
  /\ (zigDecimals cfg <> 0 ->
      nt_sender normalized ∈ monitoredWallets cfg
      \/ nt_recipient normalized ∈ monitoredWallets cfg ->
      nt_denom normalized = "uzig" ->
      minAmountUzig cfg <= nt_amountUzig normalized ->
      exists st' new,
        processTransfer cfg txContext normalized st = (Ok tt, st')
        /\ effects st' = effects st ++ (Notify <$> new)
        /\ al_direction <$> new
           = (if decide (nt_sender normalized ∈ monitoredWallets cfg) then [Sent] else [])
             ++ (if decide (nt_recipient normalized ∈ monitoredWallets cfg)
                 then [Received] else [])
        /\ al_wallet <$> new
           = (if decide (nt_sender normalized ∈ monitoredWallets cfg)
              then [nt_sender normalized] else [])
             ++ (if decide (nt_recipient normalized ∈ monitoredWallets cfg)
                 then [nt_recipient normalized] else [])).
Proof.
  split.
  - intros H. unfold processTransfer. cbv zeta.
    destruct (bool_decide (nt_sender normalized ∈ monitoredWallets cfg)) eqn:Es;
    destruct (bool_decide (nt_recipient normalized ∈ monitoredWallets cfg)) eqn:Er;
      cbn [negb andb]; try reflexivity;
      (destruct (String.eqb_spec (nt_denom normalized) "uzig") as [Ed|Ed];
         cbn [negb]; [|reflexivity]);
      (destruct (Z.ltb_spec (nt_amountUzig normalized) (minAmountUzig cfg)) as [Ea|Ea];
         [reflexivity|]);
      exfalso; destruct H as [[Hs Hr]|[Hd|Ha]]; try contradiction; try lia;
      try (apply bool_decide_eq_true_1 in Es; contradiction);
      try (apply bool_decide_eq_true_1 in Er; contradiction).
  - intros Hz Hmatch Hdenom Hmin. unfold processTransfer. cbv zeta.
    rewrite Hdenom. cbn [String.eqb Ascii.eqb Bool.eqb negb].
    destruct (Z.ltb_spec (nt_amountUzig normalized) (minAmountUzig cfg)); [lia|].
    unfold formatZigAmount. destruct (Z.eqb_spec (zigDecimals cfg) 0); [contradiction|].
    match goal with
    | |- context [match (if ?c then Ok ?a else Ok ?b) with _ => _ end] =>
        replace (if c then Ok a else Ok b) with (Ok (if c then a else b))
          by (destruct c; reflexivity);
        set (amountZig := if c then a else b)
    end.
    cbv iota beta.
    destruct (decide (nt_sender normalized ∈ monitoredWallets cfg)) as [Hs|Hs];
    destruct (decide (nt_recipient normalized ∈ monitoredWallets cfg)) as [Hr|Hr];
      rewrite ?(bool_decide_eq_true_2 _ Hs), ?(bool_decide_eq_false_2 _ Hs),
              ?(bool_decide_eq_true_2 _ Hr), ?(bool_decide_eq_false_2 _ Hr);
      cbn [negb andb].
    + eexists _, [_; _]. split; [reflexivity|]. unfold sendAlert. simpl.
      rewrite <- app_assoc. repeat split.
    + eexists _, [_]. split; [reflexivity|]. unfold sendAlert. simpl. repeat split.
    + eexists _, [_]. split; [reflexivity|]. unfold sendAlert. simpl. repeat split.
    + destruct Hmatch; contradiction.
Qed.

Lemma processTransfer_filters_witness :
  processTransfer scenarioConfig None
    {| nt_sender := "A"; nt_recipient := "B"; nt_amountUzig := 39999999;
       nt_denom := "uzig"; nt_txhash := "H1" |} newMonitor = (Ok tt, newMonitor)
  /\ (exists st' new,
        processTransfer scenarioConfig None selfTransfer newMonitor = (Ok tt, st')
        /\ effects st' = Notify <$> new
        /\ al_direction <$> new = [Sent; Received]).
Proof.
  split.
  - apply processTransfer_filters. right. right. simpl. lia.
  - assert (HA : "A" ∈ monitoredWallets scenarioConfig)
      by (apply (bool_decide_unpack _); vm_compute; exact I).
    destruct (processTransfer_filters scenarioConfig None selfTransfer newMonitor)
      as [_ H].
    destruct (H ltac:(discriminate) (or_introl HA) eq_refl ltac:(simpl; lia))
      as (st' & new & Hp & He & Hd & _).
    exists st', new. split; [exact Hp|]. split; [exact He|].
    rewrite Hd. simpl. rewrite !decide_True by exact HA. reflexivity.
Defined.

(** *** What the coordinator alerts on *)

Lemma processTransfer_alerts cfg txContext normalized st r st' :
  processTransfer cfg txContext normalized st = (r, st') ->
  exists new,
    effects st' = effects st ++ (Notify <$> new)
    /\ Forall (fun a =>
         al_wallet a ∈ monitoredWallets cfg
         /\ al_denom a = "uzig"
         /\ al_txHash a = nt_txhash normalized
         /\ (al_direction a = Sent /\ al_wallet a = al_sender a
             \/ al_direction a = Received /\ al_wallet a = al_recipient a)
         /\ minAmountUzig cfg <= nt_amountUzig normalized
         /\ al_amountUzig a = BigInt_toString (nt_amountUzig normalized)) new.
Proof.
  unfold processTransfer. cbv zeta.
  destruct (decide (nt_sender normalized ∈ monitoredWallets cfg)) as [Hs|Hs];
  destruct (decide (nt_recipient normalized ∈ monitoredWallets cfg)) as [Hr|Hr];
    rewrite ?(bool_decide_eq_true_2 _ Hs), ?(bool_decide_eq_false_2 _ Hs),
            ?(bool_decide_eq_true_2 _ Hr), ?(bool_decide_eq_false_2 _ Hr);
    cbn [negb andb];
    try (intros [= <- <-]; exists []; split; [symmetry; apply app_nil_r | constructor]);
    (destruct (String.eqb_spec (nt_denom normalized) "uzig") as [Hd|Hd]; cbn [negb];
       [|intros [= <- <-]; exists []; split; [symmetry; apply app_nil_r | constructor]]);
    (destruct (Z.ltb_spec (nt_amountUzig normalized) (minAmountUzig cfg)) as [Ha|Ha];
       [intros [= <- <-]; exists []; split; [symmetry; apply app_nil_r | constructor]|]);
    (destruct (formatZigAmount cfg (nt_amountUzig normalized)) as [amountZig|e];
       [|intros [= <- <-]; exists []; split; [symmetry; apply app_nil_r | constructor]]);
    intros [= <- <-]; unfold sendAlert; cbn [effects emit].
  - eexists [_; _]. rewrite <- app_assoc. split; [reflexivity|].
    repeat (constructor; [cbn; repeat split; auto|]); constructor.
  - eexists [_]. split; [reflexivity|].
    repeat (constructor; [cbn; repeat split; auto|]); constructor.
  - eexists [_]. split; [reflexivity|].
    repeat (constructor; [cbn; repeat split; auto|]); constructor.
Qed.

Lemma alertsOf_notify (new : list Alert) : alertsOf (Notify <$> new) = new.
Proof. induction new as [|a l IH]; simpl; [reflexivity|]. f_equal. exact IH. Qed.

Lemma processTransfers_alerts cfg txContext h transfers st r st' :
  Forall (fun n => nt_txhash n = h /\ 0 < nt_amountUzig n) transfers ->
  processTransfers cfg txContext transfers st = (r, st') ->
  exists new,
    alertsOf (effects st') = alertsOf (effects st) ++ new
    /\ Forall (fun a =>
         al_wallet a ∈ monitoredWallets cfg
         /\ al_denom a = "uzig"
         /\ al_txHash a = h
         /\ (al_direction a = Sent /\ al_wallet a = al_sender a
             \/ al_direction a = Received /\ al_wallet a = al_recipient a)
         /\ (exists amount,
               minAmountUzig cfg <= amount /\ 0 < amount
               /\ al_amountUzig a = BigInt_toString amount)) new.
Proof.
  intros Hts. revert st. induction Hts as [|n ts [Hh Hpos] _ IH]; intros st;
    cbn [processTransfers].
  - intros [= <- <-]. exists []. split; [symmetry; apply app_nil_r | constructor].
  - destruct (processTransfer cfg txContext n st) as [r0 st0] eqn:E.
    apply processTransfer_alerts in E as (new0 & He0 & Hall0).
    assert (Hall0' : Forall (fun a =>
         al_wallet a ∈ monitoredWallets cfg
         /\ al_denom a = "uzig"
         /\ al_txHash a = h
         /\ (al_direction a = Sent /\ al_wallet a = al_sender a
             \/ al_direction a = Received /\ al_wallet a = al_recipient a)
         /\ (exists amount,
               minAmountUzig cfg <= amount /\ 0 < amount
               /\ al_amountUzig a = BigInt_toString amount)) new0).
    { eapply Forall_impl; [exact Hall0|]. cbn. intros a (Hw & Hd & Hx & Hdir & Hmin & Ham).
      repeat split; try assumption; [congruence|]. exists (nt_amountUzig n). auto. }
    destruct r0 as [[]|e].
    + intros H. apply IH in H as (new1 & He1 & Hall1).
      exists (new0 ++ new1). split.
      * rewrite He1, He0, alertsOf_app, alertsOf_notify, app_assoc. reflexivity.
      * apply Forall_app. split; assumption.
    + intros [= <- <-]. exists new0. split; [|exact Hall0'].
      rewrite He0, alertsOf_app, alertsOf_notify. reflexivity.
Qed.

Lemma alertsOf_markSeen cfg h st :
  alertsOf (effects (markSeen cfg h st)) = alertsOf (effects st).
Proof. rewrite effects_markSeen. reflexivity. Qed.

Lemma processBuckets_alerts http cfg (seen : gset string) txBuckets st r st' :
  Forall (fun b =>
    (fst b ∉ seen) /\ fst b <> EmptyString
    /\ Forall (fun n => nt_txhash n = fst b /\ 0 < nt_amountUzig n) (snd b)) txBuckets ->
  processBuckets http cfg txBuckets st = (r, st') ->
  exists new,
    alertsOf (effects st') = alertsOf (effects st) ++ new
    /\ Forall (alertOk cfg seen) new.
Proof.
  intros Hbs. revert st. induction Hbs as [|[h ts] rest (Hnew & Hne & Hts) _ IH];
    intros st; cbn [processBuckets].
  - intros [= <- <-]. exists []. split; [symmetry; apply app_nil_r | constructor].
  - cbn [fst snd] in *. unfold processBucket.
    destruct (getTxContext http cfg h st) as [txContext st1] eqn:Eget.
    apply getTxContext_frame in Eget as (_ & _ & _ & Ha1).
    destruct (processTransfers cfg txContext ts st1) as [r0 st2] eqn:Ep.
    apply (processTransfers_alerts cfg txContext h ts st1 r0 st2 Hts) in Ep
      as (new0 & He0 & Hall0).
    assert (Hok0 : Forall (alertOk cfg seen) new0).
    { eapply Forall_impl; [exact Hall0|]. cbn.
      intros a (Hw & Hd & Hx & Hdir & Ham). unfold alertOk. rewrite Hx. auto 10. }
    destruct r0 as [[]|e].
    + intros H. apply IH in H as (new1 & He1 & Hall1).
      exists (new0 ++ new1). split; [|apply Forall_app; split; assumption].
      rewrite He1, alertsOf_markSeen, He0, Ha1, app_assoc. reflexivity.
    + intros [= <- <-]. exists new0. split; [|exact Hok0].
      rewrite He0, Ha1. reflexivity.
Qed.

Lemma normalizeTransfer_positive event normalized :
  normalizeTransfer event = Some normalized -> 0 < nt_amountUzig normalized.
Proof.
  unfold normalizeTransfer. cbv zeta. destruct (_ || _); [discriminate|].
  destruct (parseAmountToUzig _ _) as [amountUzig|]; [|discriminate].
  destruct (Z.leb_spec amountUzig 0); [discriminate|]. intros [= <-]. exact H.
Qed.

Lemma bucketPush_members normalized txBuckets :
  0 < nt_amountUzig normalized ->
  Forall (fun b => Forall (fun n => nt_txhash n = fst b /\ 0 < nt_amountUzig n) (snd b))
    txBuckets ->
  Forall (fun b => Forall (fun n => nt_txhash n = fst b /\ 0 < nt_amountUzig n) (snd b))
    (bucketPush normalized txBuckets).
Proof.
  intros Hpos. induction 1 as [|[h ts] rest Hb Hrest IH]; cbn [bucketPush].
  - repeat constructor. exact Hpos.
  - destruct (String.eqb_spec (nt_txhash normalized) h) as [E|E].
    + constructor; [|assumption]. cbn [fst snd] in *.
      apply Forall_app. split; [exact Hb|]. repeat constructor; assumption.
    + constructor; assumption.
Qed.

Lemma fillBuckets_members (seen : gset string) events txBuckets :
  Forall (fun b => Forall (fun n => nt_txhash n = fst b /\ 0 < nt_amountUzig n) (snd b))
    txBuckets ->
  Forall (fun b => Forall (fun n => nt_txhash n = fst b /\ 0 < nt_amountUzig n) (snd b))
    (fillBuckets seen events txBuckets).
Proof.
  revert txBuckets. induction events as [|event r IH]; intros txBuckets Hb;
    cbn [fillBuckets]; [exact Hb|].
  destruct (normalizeTransfer event) as [n|] eqn:En; [|apply IH, Hb].
  destruct (bool_decide _); [apply IH, Hb|].
  apply IH, bucketPush_members; [eapply normalizeTransfer_positive, En | exact Hb].
Qed.

(** X5.  Every alert of a run of [handleRawMessage] that nothing
    interrupts names a watched wallet on the side its direction says, the
    base denomination, an amount that is positive and at or above the
    threshold, and a non-empty hash that was not in the ledger when the frame
    arrived. *)
Theorem alerts_are_sound
    (JSON_parse : string -> option json) (base64_utf8 : string -> string)
    (http : nat -> string -> http_outcome) (cfg : AppConfig)
    (raw : string) (st st' : Monitor) (r : result unit) :
  handleRawMessage JSON_parse base64_utf8 http cfg raw st = (r, st') ->
  exists new,
    alertsOf (effects st') = alertsOf (effects st) ++ new
    /\ Forall (alertOk cfg (seenTxHashes st)) new.
Proof.
  unfold handleRawMessage.
  assert (Hnone : exists new : list Alert,
            alertsOf (effects st) = alertsOf (effects st) ++ new
            /\ Forall (alertOk cfg (seenTxHashes st)) new)
    by (exists []; split; [symmetry; apply app_nil_r | constructor]).
  destruct (JSON_parse raw) as [parsed|]; [|intros [= <- <-]; exact Hnone].
  destruct (extractTxSendEvents base64_utf8 parsed) as [events|e];
    [|intros [= <- <-]; exact Hnone].
  destruct (negb (nonNil events)).
  - intros [= <- <-]. destruct (logNonEventMessage_frame parsed st) as (_ & _ & He).
    rewrite He. exact Hnone.
  - apply processBuckets_alerts.
    destruct (fillBuckets_keys (seenTxHashes st) events []) as [_ Hkeys].
    { constructor. }
    { intros k Hk. inversion Hk. }
    pose proof (fillBuckets_members (seenTxHashes st) events [] ltac:(constructor)) as Hm.
    apply Forall_forall. intros [h ts] Hin. cbn [fst snd].
    destruct (Hkeys h) as [Hk1 Hk2].
    { unfold bucketKeys. apply list_elem_of_fmap. exists (h, ts). auto. }
    split; [exact Hk1|]. split; [exact Hk2|].
    rewrite Forall_forall in Hm. apply (Hm (h, ts) Hin).
Qed.

(** The scenario frame on a new monitor, with failing lookups. *)
Lemma alerts_are_sound_witness :
  exists new,
    alertsOf (effects (snd (handleRawMessage Node.JSON_parse Node.base64_utf8 http500
                              scenarioConfig eventsFrame newMonitor)))
    = alertsOf (effects newMonitor) ++ new
    /\ Forall (alertOk scenarioConfig (seenTxHashes newMonitor)) new.
Proof.
  destruct (handleRawMessage Node.JSON_parse Node.base64_utf8 http500 scenarioConfig
              eventsFrame newMonitor) as [r st'] eqn:E.
  exact (alerts_are_sound Node.JSON_parse Node.base64_utf8 http500 scenarioConfig
           eventsFrame newMonitor st' r E).
Defined.

(** *** Runs that overlap *)

Lemma sendAlert_frame transfer wallet direction amountZig txContext st :
  seenTxHashes (sendAlert transfer wallet direction amountZig txContext st) = seenTxHashes st
  /\ txOrder (sendAlert transfer wallet direction amountZig txContext st) = txOrder st
  /\ txContextCache (sendAlert transfer wallet direction amountZig txContext st)
     = txContextCache st.
Proof. repeat split. Qed.

Lemma seenTxHashes_markSeen_ext cfg h st st' :
  seenTxHashes st' = seenTxHashes st -> txOrder st' = txOrder st ->
  seenTxHashes (markSeen cfg h st') = seenTxHashes (markSeen cfg h st)
  /\ txOrder (markSeen cfg h st') = txOrder (markSeen cfg h st).
Proof.
  intros Hs Ho. unfold markSeen. rewrite Hs, Ho.
  destruct (if _ <? _ then _ else _). split; reflexivity.
Qed.

Section OverlapFacts.

Variable JSON_parse : string -> option json.
Variable base64_utf8 : string -> string.
Variable http : nat -> string -> http_outcome.
Variable cfg : AppConfig.

(** The outer loop up to its wait: the cache is as it was, and so is the
    ledger; a lookup that starts is that of a hash the cache does not
    hold. *)
Lemma runBuckets_frame buckets st p st' :
  runBuckets cfg buckets st = (p, st') ->
  txContextCache st' = txContextCache st
  /\ seenTxHashes st' = seenTxHashes st
  /\ txOrder st' = txOrder st
  /\ alertsOf (effects st') = alertsOf (effects st)
  /\ match p with
     | Waits at_ =>
         (lookupOf at_ = None
          \/ exists txHash, lookupOf at_ = Some txHash /\ txContextCache st !! txHash = None)
         /\ hashesOf at_ = (fst <$> buckets)
         /\ match at_ with AtAlert _ _ _ _ _ _ _ => False | _ => True end
     | Finished r => r = Ok tt
     end.
Proof.
  destruct buckets as [|[txHash transfers] rest]; cbn [runBuckets].
  - intros [= <- <-]. repeat split.
  - destruct (txContextCache st !! txHash) as [cached|] eqn:Ec; intros [= <- <-].
    + repeat split. left. reflexivity.
    + cbn [emit txContextCache seenTxHashes txOrder effects]. rewrite alertsOf_app.
      cbn. rewrite app_nil_r. repeat split. right. exists txHash. split; [reflexivity | exact Ec].
Qed.

(** The inner loop up to its next wait: the cache is as it was; the ledger
    is as it was unless the loop got to its end, where the hash is marked. *)
Lemma runBucket_frame txContext txHash rest transfers st p st' :
  runBucket cfg txContext txHash rest transfers st = (p, st') ->
  txContextCache st' = txContextCache st
  /\ (txOrder st' = txOrder st \/ txOrder st' = txOrder (markSeen cfg txHash st))
  /\ match p with
     | Waits at_ =>
         (lookupOf at_ = None
          \/ exists h, lookupOf at_ = Some h /\ txContextCache st !! h = None)
         /\ (forall h, h ∈ hashesOf at_ -> h ∈ txHash :: (fst <$> rest))
     | Finished _ => True
     end.
Proof.
  revert st. induction transfers as [|normalized later IH]; intros st; cbn [runBucket].
  - intros Hr. apply runBuckets_frame in Hr as (Hc & _ & Ho & _ & Hp).
    rewrite txContextCache_markSeen in Hc. split; [exact Hc|]. split; [right; exact Ho|].
    destruct p as [r|at_]; [exact I|]. destruct Hp as (Hl & Hh & _). split.
    + rewrite txContextCache_markSeen in Hl. exact Hl.
    + intros h Hin. rewrite Hh in Hin. apply list_elem_of_further, Hin.
  - cbv zeta.
    destruct (negb _ && negb _); [apply IH|].
    destruct (negb _); [apply IH|].
    destruct (_ <? _); [apply IH|].
    destruct (formatZigAmount cfg (nt_amountUzig normalized)) as [amountZig|e].
    + destruct (bool_decide _); intros [= <- <-];
        (split; [reflexivity|]; split; [left; reflexivity|];
         split; [left; reflexivity | intros h Hin; exact Hin]).
    + intros [= <- <-]. split; [reflexivity|]. split; [left; reflexivity | exact I].
Qed.

Lemma logNonEventMessage_cache payload st :
  txContextCache (logNonEventMessage payload st) = txContextCache st.
Proof.
  unfold logNonEventMessage.
  repeat (match goal with
          | |- context [match ?c with _ => _ end] => destruct c
          end; try reflexivity).
Qed.

(** Resuming a run that is not looking up [h] keeps the entry of [h], and
    does not start a lookup of [h]. *)
Lemma resume_keeps_entry h (entry : option TxContext) at_ st p st' :
  resume http cfg at_ st = (p, st') ->
  lookupOf at_ <> Some h ->
  txContextCache st !! h = Some entry ->
  txContextCache st' !! h = Some entry
  /\ (forall next, p = Waits next -> lookupOf next <> Some h).
Proof.
  assert (Hbucket : forall txContext txHash rest transfers st0,
            txContextCache st0 !! h = Some entry ->
            runBucket cfg txContext txHash rest transfers st0 = (p, st') ->
            txContextCache st' !! h = Some entry
            /\ (forall next, p = Waits next -> lookupOf next <> Some h)).
  { intros txContext txHash rest transfers st0 Hin Hr.
    apply runBucket_frame in Hr as (Hc & _ & Hp). split; [rewrite Hc; exact Hin|].
    intros next ->. destruct Hp as [[Hl|(h' & Hl & Hm)] _]; rewrite Hl; [discriminate|].
    intros [= ->]. rewrite Hin in Hm. discriminate. }
  destruct at_ as [request attempt txHash transfers rest
                  |attempt txHash transfers rest
                  |txContext txHash transfers rest
                  |thenReceived amountZig txContext normalized later txHash rest];
    cbn [resume lookupOf]; intros Hr Hne Hin.
  - assert (Hh : txHash <> h) by congruence.
    destruct (attemptContext _) as [context|].
    + injection Hr as <- <-. cbn [cacheSet txContextCache].
      rewrite lookup_insert_ne by exact Hh. split; [exact Hin|].
      intros next [= <-]. discriminate.
    + destruct (attempt <? 3); injection Hr as <- <-; (split; [exact Hin|]);
        intros next [= <-]; [exact Hne | discriminate].
  - injection Hr as <- <-. split; [exact Hin|]. intros next [= <-]. exact Hne.
  - eapply Hbucket; [exact Hin | exact Hr].
  - destruct thenReceived.
    + injection Hr as <- <-. split; [exact Hin|]. intros next [= <-]. discriminate.
    + eapply Hbucket; [exact Hin | exact Hr].
Qed.

Lemma startHandler_keeps_entry h (entry : option TxContext) raw st p st' :
  startHandler JSON_parse base64_utf8 cfg raw st = (p, st') ->
  txContextCache st !! h = Some entry ->
  txContextCache st' !! h = Some entry
  /\ (forall next, p = Waits next -> lookupOf next <> Some h).
Proof.
  unfold startHandler. intros Hr Hin.
  destruct (JSON_parse raw) as [parsed|];
    [|injection Hr as <- <-; split; [exact Hin | discriminate]].
  destruct (extractTxSendEvents base64_utf8 parsed) as [events|e];
    [|injection Hr as <- <-; split; [exact Hin | discriminate]].
  destruct (negb (nonNil events)).
  - injection Hr as <- <-. rewrite logNonEventMessage_cache. split; [exact Hin | discriminate].
  - apply runBuckets_frame in Hr as (Hc & _ & _ & _ & Hp). split; [rewrite Hc; exact Hin|].
    intros next ->. destruct Hp as [[Hl|(h' & Hl & Hm)] _]; rewrite Hl; [discriminate|].
    intros [= ->]. rewrite Hin in Hm. discriminate.
Qed.

Lemma step_keeps_entry h (entry : option TxContext) sys happening :
  txContextCache (monitor sys) !! h = Some entry ->
  Forall (fun at_ => lookupOf at_ <> Some h) (waiting sys) ->
  let sys' := step JSON_parse base64_utf8 http cfg sys happening in
  txContextCache (monitor sys') !! h = Some entry
  /\ Forall (fun at_ => lookupOf at_ <> Some h) (waiting sys').
Proof.
  intros Hin Hall. destruct happening as [raw|i]; cbn [step].
  - destruct (startHandler JSON_parse base64_utf8 cfg raw (monitor sys)) as [p st'] eqn:E.
    apply (startHandler_keeps_entry h entry) in E as [Hin' Hnext]; [|exact Hin].
    destruct p as [r|next]; cbn [settle monitor waiting]; split; try assumption.
    apply Forall_app. split; [exact Hall|]. repeat constructor. apply Hnext. reflexivity.
  - destruct (waiting sys !! i) as [at_|] eqn:Ei; [|split; assumption].
    destruct (resume http cfg at_ (monitor sys)) as [p st'] eqn:E.
    apply (resume_keeps_entry h entry) in E as [Hin' Hnext];
      [|exact (Forall_lookup_1 _ _ _ _ Hall Ei) | exact Hin].
    assert (Hdel : Forall (fun at_ => lookupOf at_ <> Some h) (delete i (waiting sys)))
      by (apply Forall_delete; exact Hall).
    destruct p as [r|next]; cbn [settle monitor waiting]; split; try assumption.
    apply Forall_app. split; [exact Hdel|]. repeat constructor. apply Hnext. reflexivity.
Qed.

Lemma run_keeps_entry h (entry : option TxContext) happenings sys :
  txContextCache (monitor sys) !! h = Some entry ->
  Forall (fun at_ => lookupOf at_ <> Some h) (waiting sys) ->
  let sys' := run JSON_parse base64_utf8 http cfg happenings sys in
  txContextCache (monitor sys') !! h = Some entry
  /\ Forall (fun at_ => lookupOf at_ <> Some h) (waiting sys').
Proof.
  revert sys. induction happenings as [|happening later IH]; intros sys Hin Hall;
    [split; assumption|].
  cbn [run foldl].
  destruct (step_keeps_entry h entry sys happening Hin Hall) as [Hin' Hall'].
  exact (IH _ Hin' Hall').
Qed.

(** **** Only non-empty hashes are queued *)

Lemma markSeen_nonEmpty h st :
  h <> EmptyString ->
  Forall (fun x => x <> EmptyString) (txOrder st) ->
  Forall (fun x => x <> EmptyString) (txOrder (markSeen cfg h st)).
Proof.
  intros Hh Hall.
  assert (Hnew : Forall (fun x => x <> EmptyString) (txOrder st ++ [h]))
    by (apply Forall_app; split; [exact Hall | repeat constructor; exact Hh]).
  rewrite markSeen_txOrder. destruct (_ <? _); [|exact Hnew].
  destruct (txOrder st ++ [h]) as [|o r]; [constructor|].
  apply Forall_cons in Hnew as [_ Hr]. exact Hr.
Qed.

Lemma runBuckets_nonEmpty buckets st p st' :
  runBuckets cfg buckets st = (p, st') ->
  Forall (fun x => x <> EmptyString) (fst <$> buckets) ->
  Forall (fun x => x <> EmptyString) (txOrder st) ->
  Forall (fun x => x <> EmptyString) (txOrder st')
  /\ (forall next, p = Waits next -> Forall (fun x => x <> EmptyString) (hashesOf next)).
Proof.
  intros Hr Hkeys Hall. apply runBuckets_frame in Hr as (_ & _ & Ho & _ & Hp).
  split; [rewrite Ho; exact Hall|].
  intros next ->. destruct Hp as (_ & Hh & _). rewrite Hh. exact Hkeys.
Qed.

Lemma runBucket_nonEmpty txContext txHash rest transfers st p st' :
  runBucket cfg txContext txHash rest transfers st = (p, st') ->
  Forall (fun x => x <> EmptyString) (txHash :: (fst <$> rest)) ->
  Forall (fun x => x <> EmptyString) (txOrder st) ->
  Forall (fun x => x <> EmptyString) (txOrder st')
  /\ (forall next, p = Waits next -> Forall (fun x => x <> EmptyString) (hashesOf next)).
Proof.
  intros Hr Hkeys Hall. apply runBucket_frame in Hr as (_ & Ho & Hp). split.
  - destruct Ho as [Ho|Ho]; rewrite Ho; [exact Hall|].
    apply markSeen_nonEmpty; [|exact Hall]. apply Forall_cons in Hkeys as [Hh _]. exact Hh.
  - intros next ->. destruct Hp as [_ Hsub].
    apply Forall_forall. intros h Hin. rewrite Forall_forall in Hkeys. apply Hkeys, Hsub, Hin.
Qed.

Lemma resume_nonEmpty at_ st p st' :
  resume http cfg at_ st = (p, st') ->
  Forall (fun x => x <> EmptyString) (hashesOf at_) ->
  Forall (fun x => x <> EmptyString) (txOrder st) ->
  Forall (fun x => x <> EmptyString) (txOrder st')
  /\ (forall next, p = Waits next -> Forall (fun x => x <> EmptyString) (hashesOf next)).
Proof.
  destruct at_ as [request attempt txHash transfers rest
                  |attempt txHash transfers rest
                  |txContext txHash transfers rest
                  |thenReceived amountZig txContext normalized later txHash rest];
    cbn [resume hashesOf]; intros Hr Hkeys Hall.
  - destruct (attemptContext _) as [context|]; [|destruct (attempt <? 3)];
      injection Hr as <- <-; (split; [exact Hall|]); intros next [= <-]; exact Hkeys.
  - injection Hr as <- <-. split; [exact Hall|]. intros next [= <-]. exact Hkeys.
  - eapply runBucket_nonEmpty; [exact Hr | exact Hkeys | exact Hall].
  - destruct thenReceived.
    + injection Hr as <- <-. split; [exact Hall|]. intros next [= <-]. exact Hkeys.
    + eapply runBucket_nonEmpty; [exact Hr | exact Hkeys | exact Hall].
Qed.

Lemma startHandler_nonEmpty raw st p st' :
  startHandler JSON_parse base64_utf8 cfg raw st = (p, st') ->
  Forall (fun x => x <> EmptyString) (txOrder st) ->
  Forall (fun x => x <> EmptyString) (txOrder st')
  /\ (forall next, p = Waits next -> Forall (fun x => x <> EmptyString) (hashesOf next)).
Proof.
  unfold startHandler. intros Hr Hall.
  destruct (JSON_parse raw) as [parsed|];
    [|injection Hr as <- <-; split; [exact Hall | discriminate]].
  destruct (extractTxSendEvents base64_utf8 parsed) as [events|e];
    [|injection Hr as <- <-; split; [exact Hall | discriminate]].
  destruct (negb (nonNil events)).
  - injection Hr as <- <-. destruct (logNonEventMessage_frame parsed st) as (_ & Ho & _).
    rewrite Ho. split; [exact Hall | discriminate].
  - destruct (fillBuckets_keys (seenTxHashes st) events []) as [_ Hkeys].
    { constructor. }
    { intros k Hk. inversion Hk. }
    assert (Hne : Forall (fun x => x <> EmptyString)
                    (fst <$> fillBuckets (seenTxHashes st) events []))
      by (apply Forall_forall; intros h Hin; apply (Hkeys h Hin)).
    eapply runBuckets_nonEmpty; eassumption.
Qed.

Lemma step_nonEmpty sys happening :
  Forall (fun x => x <> EmptyString) (txOrder (monitor sys)) ->
  Forall (fun at_ => Forall (fun x => x <> EmptyString) (hashesOf at_)) (waiting sys) ->
  let sys' := step JSON_parse base64_utf8 http cfg sys happening in
  Forall (fun x => x <> EmptyString) (txOrder (monitor sys'))
  /\ Forall (fun at_ => Forall (fun x => x <> EmptyString) (hashesOf at_)) (waiting sys').
Proof.
  intros Hq Hall. destruct happening as [raw|i]; cbn [step].
  - destruct (startHandler JSON_parse base64_utf8 cfg raw (monitor sys)) as [p st'] eqn:E.
    apply startHandler_nonEmpty in E as [Hq' Hnext]; [|exact Hq].
    destruct p as [r|next]; cbn [settle monitor waiting]; split; try assumption.
    apply Forall_app. split; [exact Hall|]. repeat constructor. apply Hnext. reflexivity.
  - destruct (waiting sys !! i) as [at_|] eqn:Ei; [|split; assumption].
    destruct (resume http cfg at_ (monitor sys)) as [p st'] eqn:E.
    apply resume_nonEmpty in E as [Hq' Hnext];
      [|exact (Forall_lookup_1 _ _ _ _ Hall Ei) | exact Hq].
    assert (Hdel : Forall (fun at_ => Forall (fun x => x <> EmptyString) (hashesOf at_))
                     (delete i (waiting sys)))
      by (apply Forall_delete; exact Hall).
    destruct p as [r|next]; cbn [settle monitor waiting]; split; try assumption.
    apply Forall_app. split; [exact Hdel|]. repeat constructor. apply Hnext. reflexivity.
Qed.

Lemma run_nonEmpty happenings sys :
  Forall (fun x => x <> EmptyString) (txOrder (monitor sys)) ->
  Forall (fun at_ => Forall (fun x => x <> EmptyString) (hashesOf at_)) (waiting sys) ->
  let sys' := run JSON_parse base64_utf8 http cfg happenings sys in
  Forall (fun x => x <> EmptyString) (txOrder (monitor sys'))
  /\ Forall (fun at_ => Forall (fun x => x <> EmptyString) (hashesOf at_)) (waiting sys').
Proof.
  revert sys. induction happenings as [|happening later IH]; intros sys Hq Hall;
    [split; assumption|].
  cbn [run foldl].
  destruct (step_nonEmpty sys happening Hq Hall) as [Hq' Hall'].
  exact (IH _ Hq' Hall').
Qed.

(** **** A run that nothing interrupts *)








End OverlapFacts.

(** X8.  A context that was found is memoized for the lifetime of the
    process: once a lookup has returned a context for a hash, and no run is
    waiting in a lookup of that hash, then whatever frames arrive and
    whatever runs are resumed afterwards, in any order, a lookup of the hash
    returns that context and leaves the state as it is: no request is sent. *)
Theorem found_context_is_memoized
    (JSON_parse : string -> option json) (base64_utf8 : string -> string)
    (http http1 http2 : nat -> string -> http_outcome) (cfg : AppConfig)
    (txHash : string) (context : TxContext) (st st1 : Monitor)
    (others : list Suspended) (happenings : list Happening) :
  getTxContext http1 cfg txHash st = (Some context, st1) ->
  Forall (fun at_ => lookupOf at_ <> Some txHash) others ->
  let later := run JSON_parse base64_utf8 http cfg happenings
                 {| monitor := st1; waiting := others |} in
  getTxContext http2 cfg txHash (monitor later) = (Some context, monitor later).
Proof.
  intros Hget Hothers later.
  assert (Hin : txContextCache st1 !! txHash = Some (Some context)).
  { unfold getTxContext in Hget. destruct (txContextCache st !! txHash) as [cached|] eqn:Ec.
    - injection Hget as -> <-. exact Ec.
    - apply getTxContext_from_frame in Hget as (_ & _ & _ & _ & _ & Hc).
      rewrite Hc. apply lookup_insert_eq. }
  destruct (run_keeps_entry JSON_parse base64_utf8 http cfg txHash (Some context) happenings
              {| monitor := st1; waiting := others |} Hin Hothers) as [Hlater _].
  fold later in Hlater.
  unfold getTxContext. rewrite Hlater. reflexivity.
Qed.

(** A context found for H1; then the frame with H2 is handled, and the
    scenario frame arrives again. *)
Lemma found_context_is_memoized_witness :
  exists st1 context,
    getTxContext httpWasm scenarioConfig "H1" newMonitor = (Some context, st1)
    /\ let later := run Node.JSON_parse Node.base64_utf8 httpNoWasm scenarioConfig
                      [Delivered otherFrame; Resumed 0; Resumed 0; Resumed 0;
                       Delivered eventsFrame]
                      {| monitor := st1; waiting := [] |} in
       getTxContext http500 scenarioConfig "H1" (monitor later)
       = (Some context, monitor later).
Proof.
  destruct (getTxContext httpWasm scenarioConfig "H1" newMonitor) as [outcome st1] eqn:E.
  assert (Ho : exists context, outcome = Some context)
    by (vm_compute in E; injection E as <- _; eexists; reflexivity).
  destruct Ho as [context ->].
  exists st1, context. split; [reflexivity|].
  apply (found_context_is_memoized Node.JSON_parse Node.base64_utf8 httpNoWasm httpWasm
           http500 scenarioConfig "H1" context newMonitor st1 [] _ E).
  constructor.
Defined.

(** X9.  However runs overlap, [markSeen] is only ever given
    non-empty hashes: every hash in the queue is non-empty, and so is every
    hash a waiting run will still mark. *)
Theorem queued_hashes_are_nonEmpty
    (JSON_parse : string -> option json) (base64_utf8 : string -> string)
    (http : nat -> string -> http_outcome) (cfg : AppConfig)
    (happenings : list Happening) :
  let sys := run JSON_parse base64_utf8 http cfg happenings newSystem in
  Forall (fun txHash => txHash <> EmptyString) (txOrder (monitor sys))
  /\ Forall (fun at_ => Forall (fun txHash => txHash <> EmptyString) (hashesOf at_))
       (waiting sys).
Proof.
  apply run_nonEmpty; constructor.
Qed.


(** **** What is alerted, however runs overlap *)

Section AlertFacts.

Variable JSON_parse : string -> option json.
Variable base64_utf8 : string -> string.
Variable http : nat -> string -> http_outcome.
Variable cfg : AppConfig.

Lemma alertsOf_emit_other e st :
  match e with Notify _ => False | _ => True end ->
  alertsOf (effects (emit e st)) = alertsOf (effects st).
Proof.
  intros He. cbn [emit effects]. rewrite alertsOf_app.
  destruct e; try contradiction; apply app_nil_r.
Qed.

Lemma sendAlert_sound normalized wallet direction amountZig txContext st :
  wallet ∈ monitoredWallets cfg ->
  nt_denom normalized = "uzig" ->
  minAmountUzig cfg <= nt_amountUzig normalized ->
  direction = Sent /\ wallet = nt_sender normalized
  \/ direction = Received /\ wallet = nt_recipient normalized ->
  Forall (alertSound cfg) (alertsOf (effects st)) ->
  Forall (alertSound cfg)
    (alertsOf (effects (sendAlert normalized wallet direction amountZig txContext st))).
Proof.
  intros Hw Hd Hm Hdir Hall. unfold sendAlert. cbn [emit effects].
  rewrite alertsOf_app. apply Forall_app. split; [exact Hall|].
  cbn. constructor; [|constructor]. unfold alertSound. cbn.
  split; [exact Hw|]. split; [exact Hd|]. split; [exact Hdir|].
  exists (nt_amountUzig normalized). split; [exact Hm | reflexivity].
Qed.

Lemma runBuckets_sound buckets st p st' :
  runBuckets cfg buckets st = (p, st') ->
  Forall (alertSound cfg) (alertsOf (effects st)) ->
  Forall (alertSound cfg) (alertsOf (effects st'))
  /\ (forall next, p = Waits next -> pendingSound cfg next).
Proof.
  intros Hr Hall. apply runBuckets_frame in Hr as (_ & _ & _ & Ha & Hp).
  split; [rewrite Ha; exact Hall|].
  intros next ->. destruct Hp as (_ & _ & Hkind). destruct next; try exact I; contradiction.
Qed.

Lemma runBucket_sound txContext txHash rest transfers st p st' :
  runBucket cfg txContext txHash rest transfers st = (p, st') ->
  Forall (alertSound cfg) (alertsOf (effects st)) ->
  Forall (alertSound cfg) (alertsOf (effects st'))
  /\ (forall next, p = Waits next -> pendingSound cfg next).
Proof.
  revert st. induction transfers as [|normalized later IH]; intros st; cbn [runBucket].
  - intros Hr Hall. eapply runBuckets_sound; [exact Hr|]. rewrite effects_markSeen. exact Hall.
  - cbv zeta.
    destruct (decide (nt_sender normalized ∈ monitoredWallets cfg)) as [Hs|Hs];
    destruct (decide (nt_recipient normalized ∈ monitoredWallets cfg)) as [Hr|Hr];
      rewrite ?(bool_decide_eq_true_2 _ Hs), ?(bool_decide_eq_false_2 _ Hs),
              ?(bool_decide_eq_true_2 _ Hr), ?(bool_decide_eq_false_2 _ Hr);
      cbn [negb andb]; try apply IH;
      (destruct (String.eqb_spec (nt_denom normalized) "uzig") as [Hd|Hd]; cbn [negb];
         [|apply IH]);
      (destruct (Z.ltb_spec (nt_amountUzig normalized) (minAmountUzig cfg)) as [Ha|Ha];
         [apply IH|]);
      (destruct (formatZigAmount cfg (nt_amountUzig normalized)) as [amountZig|e];
         [|intros [= <- <-] Hall; split; [exact Hall | discriminate]]);
      intros [= <- <-] Hall;
      (split; [apply sendAlert_sound; auto | intros next [= <-]; cbn; auto]).
Qed.

Lemma resume_sound at_ st p st' :
  resume http cfg at_ st = (p, st') ->
  pendingSound cfg at_ ->
  Forall (alertSound cfg) (alertsOf (effects st)) ->
  Forall (alertSound cfg) (alertsOf (effects st'))
  /\ (forall next, p = Waits next -> pendingSound cfg next).
Proof.
  destruct at_ as [request attempt txHash transfers rest
                  |attempt txHash transfers rest
                  |txContext txHash transfers rest
                  |thenReceived amountZig txContext normalized later txHash rest];
    cbn [resume]; intros Hr Hpending Hall.
  - destruct (attemptContext _) as [context|]; [|destruct (attempt <? 3)];
      injection Hr as <- <-; (split; [|intros next [= <-]; exact I]);
      try exact Hall.
    rewrite alertsOf_emit_other by exact I. exact Hall.
  - injection Hr as <- <-. split; [|intros next [= <-]; exact I].
    rewrite alertsOf_emit_other by exact I. exact Hall.
  - eapply runBucket_sound; [exact Hr | exact Hall].
  - destruct thenReceived.
    + injection Hr as <- <-. destruct Hpending as (Hw & Hd & Hm).
      split; [apply sendAlert_sound; auto | intros next [= <-]; exact I].
    + eapply runBucket_sound; [exact Hr | exact Hall].
Qed.

Lemma startHandler_sound raw st p st' :
  startHandler JSON_parse base64_utf8 cfg raw st = (p, st') ->
  Forall (alertSound cfg) (alertsOf (effects st)) ->
  Forall (alertSound cfg) (alertsOf (effects st'))
  /\ (forall next, p = Waits next -> pendingSound cfg next).
Proof.
  unfold startHandler. intros Hr Hall.
  destruct (JSON_parse raw) as [parsed|];
    [|injection Hr as <- <-; split; [exact Hall | discriminate]].
  destruct (extractTxSendEvents base64_utf8 parsed) as [events|e];
    [|injection Hr as <- <-; split; [exact Hall | discriminate]].
  destruct (negb (nonNil events)).
  - injection Hr as <- <-. destruct (logNonEventMessage_frame parsed st) as (_ & _ & He).
    rewrite He. split; [exact Hall | discriminate].
  - eapply runBuckets_sound; eassumption.
Qed.

Lemma step_sound sys happening :
  Forall (alertSound cfg) (alertsOf (effects (monitor sys))) ->
  Forall (pendingSound cfg) (waiting sys) ->
  let sys' := step JSON_parse base64_utf8 http cfg sys happening in
  Forall (alertSound cfg) (alertsOf (effects (monitor sys')))
  /\ Forall (pendingSound cfg) (waiting sys').
Proof.
  intros Hq Hall. destruct happening as [raw|i]; cbn [step].
  - destruct (startHandler JSON_parse base64_utf8 cfg raw (monitor sys)) as [p st'] eqn:E.
    apply startHandler_sound in E as [Hq' Hnext]; [|exact Hq].
    destruct p as [r|next]; cbn [settle monitor waiting]; split; try assumption.
    apply Forall_app. split; [exact Hall|]. repeat constructor. apply Hnext. reflexivity.
  - destruct (waiting sys !! i) as [at_|] eqn:Ei; [|split; assumption].
    destruct (resume http cfg at_ (monitor sys)) as [p st'] eqn:E.
    apply resume_sound in E as [Hq' Hnext];
      [|exact (Forall_lookup_1 _ _ _ _ Hall Ei) | exact Hq].
    assert (Hdel : Forall (pendingSound cfg) (delete i (waiting sys)))
      by (apply Forall_delete; exact Hall).
    destruct p as [r|next]; cbn [settle monitor waiting]; split; try assumption.
    apply Forall_app. split; [exact Hdel|]. repeat constructor. apply Hnext. reflexivity.
Qed.

Lemma run_sound happenings sys :
  Forall (alertSound cfg) (alertsOf (effects (monitor sys))) ->
  Forall (pendingSound cfg) (waiting sys) ->
  let sys' := run JSON_parse base64_utf8 http cfg happenings sys in
  Forall (alertSound cfg) (alertsOf (effects (monitor sys')))
  /\ Forall (pendingSound cfg) (waiting sys').
Proof.
  revert sys. induction happenings as [|happening later IH]; intros sys Hq Hall;
    [split; assumption|].
  cbn [run foldl].
  destruct (step_sound sys happening Hq Hall) as [Hq' Hall'].
  exact (IH _ Hq' Hall').
Qed.

End AlertFacts.

(** X11.  However runs overlap, the monitor only alerts on a watched
    wallet, on the side the direction names, in the base denomination, for an
    amount at or above the threshold. *)
Theorem overlapping_runs_alert_soundly
    (JSON_parse : string -> option json) (base64_utf8 : string -> string)
    (http : nat -> string -> http_outcome) (cfg : AppConfig)
    (happenings : list Happening) :
  Forall (alertSound cfg)
    (alertsOf (effects (monitor (run JSON_parse base64_utf8 http cfg happenings newSystem)))).
Proof.
  apply (run_sound JSON_parse base64_utf8 http cfg happenings newSystem); constructor.
Qed.

(** X12.  When the queue is full and a copy of the hash heads it,
    [markSeen] of that hash leaves the hash outside the set: the hash is
    added, queued, and deleted again with the copy that is evicted. *)
Theorem markSeen_evicts_its_own_hash (cfg : AppConfig) (txHash : string)
    (queued : list string) (st : Monitor) :
  txOrder st = txHash :: queued ->
  txHash <> EmptyString ->
  maxSeenTxHashes cfg <= Z.of_nat (length (txOrder st)) ->
  (txHash ∉ seenTxHashes (markSeen cfg txHash st))
  /\ txOrder (markSeen cfg txHash st) = queued ++ [txHash].
Proof.
  intros Ho Hne Hcap. rewrite Ho in Hcap. unfold markSeen. rewrite Ho.
  assert (Hlt : (maxSeenTxHashes cfg <? Z.of_nat (length ((txHash :: queued) ++ [txHash])))
                = true).
  { apply Z.ltb_lt. rewrite length_app. cbn [length] in *. lia. }
  rewrite Hlt. cbn [app]. apply nonEmpty_true in Hne. rewrite Hne. cbn [seenTxHashes txOrder].
  split; [set_solver | reflexivity].
Qed.

(** The ledger the overlapped deliveries leave, with room for two hashes:
    H1 heads the queue and is marked. *)
Lemma markSeen_evicts_its_own_hash_witness :
  let st := monitor (run Node.JSON_parse Node.base64_utf8 httpWasm twoSlotConfig
                       overlappedDeliveries newSystem) in
  ("H1" ∉ seenTxHashes (markSeen twoSlotConfig "H1" st))
  /\ txOrder (markSeen twoSlotConfig "H1" st) = ["H2"; "H1"].
Proof.
  cbv zeta.
  set (st := monitor (run Node.JSON_parse Node.base64_utf8 httpWasm twoSlotConfig
                        overlappedDeliveries newSystem)).
  assert (Ho : txOrder st = "H1" :: ["H2"]) by (vm_compute; reflexivity).
  apply (markSeen_evicts_its_own_hash twoSlotConfig "H1" ["H2"] st Ho).
  - discriminate.
  - rewrite Ho. vm_compute. discriminate.
Defined.
